(** * PiPredict: the escrow and settlement code of [server.js]

    A shallow embedding of the three money-moving entry points of
    [src/server.js] -- the [/join-challenge] handler, [settleMatch] and the
    [/subscribe] handler -- together with the properties of them that the
    specification states.

    Amounts are JavaScript Numbers.  A Number is an IEEE 754 binary64 value,
    which is what Rocq's primitive [float] is, so [piBalance], [pool] and
    [entryFee] are [float]s and [+], [-], [*], [/] and [<] are the primitive
    operations (round to nearest, ties to even).  The two Mongoose
    collections are finite maps from the lookup key ([uid], [matchId]) to the
    stored document; a handler is a function from the database to its
    response and the new database, and requests are served one at a time.
    The two counters ([wins], [referrals]) are integer-valued Numbers from 0
    up, held in [N] and incremented as binary64 does ([Number.succ]: the
    addition of 1 is exact below 2^53 and rounded from there on); dates are
    milliseconds in [Z]; what the sports APIs answer is an argument of
    [settleMatch]; an exception ends a call as [Threw] with the documents
    saved so far.  Mongoose refuses to save NaN in a Number field, so a
    [save()] that would store a NaN balance or pool total throws.  The
    [entryFee] of a join body is a JSON number, or absent. *)

From Stdlib Require Import ZArith QArith Qround Floats String Ascii List Bool Lia.
From Stdlib Require Uint63.
From stdpp Require Import base option list strings gmap pretty.
From stdpp Require Import sorting.

Set Warnings "-inexact-float".

Local Open Scope string_scope.

(** ** Numbers *)

Module Number.

(** [winners.length] used as a Number. *)
Definition of_nat (n : nat) : float :=
  PrimFloat.of_uint63 (Uint63.of_Z (Z.of_nat n)).

(** The exact rational value of a finite Number ([None] for NaN and the
    infinities). *)
Definition SF_value (x : spec_float) : option Q :=
  match x with
  | S754_zero _ => Some 0%Q
  | S754_finite s m e =>
      let n := if s then Zneg m else Zpos m in
      Some (match e with
            | Zneg k => Qmake n (2 ^ k)
            | _ => inject_Z (n * 2 ^ e)
            end)
  | S754_infinity _ | S754_nan => None
  end.

Definition value (x : float) : option Q := SF_value (Prim2SF x).

(** [x] rounded down to a whole number of units [u]. *)
Definition floor_to_unit (u x : Q) : Q := (inject_Z (Qfloor (x / u)) * u)%Q.

(** The mantissa of [m * 2^e] once aligned on the smaller of the exponents
    [e] and [e']. *)
Definition aligned (m : positive) (e e' : Z) : Z :=
  Z.pos (fst (shl_align m e (Z.min e e'))).

Definition sign_bit (x : spec_float) : bool :=
  match x with
  | S754_zero s | S754_infinity s | S754_finite s _ _ => s
  | S754_nan => false
  end.

(** [n + 1] on a counter, an integer-valued Number [n] from 0 up.  Below
    2^53 the sum is exact.  From 2^53 on consecutive Numbers are 2 or more
    apart and the sum is rounded to the nearest of them, ties to the even
    mantissa: between 2^53 and 2^54 it is [n] or [n + 2], above it is
    [n]. *)
Definition succ (n : N) : N :=
  if (n <? 2 ^ 53)%N then (n + 1)%N
  else if (n <? 2 ^ 54)%N && N.odd (n / 2) then (n + 2)%N
  else n.

(** A counter as the Number it is. *)
Definition of_N (n : N) : float :=
  PrimFloat.of_uint63 (Uint63.of_Z (Z.of_N n)).

(** A finite Number is a zero or has a mantissa. *)
Definition SF_finite (x : spec_float) : Prop :=
  match x with
  | S754_zero _ | S754_finite _ _ _ => True
  | _ => False
  end.

(** [b < 0] as JavaScript evaluates it. *)
Definition negative (b : float) : bool := PrimFloat.ltb b 0%float.

End Number.

(** ** Documents (the Mongoose schemas) *)

Record User := mkUser {
  uid : string;
  username : string;
  piBalance : float;
  isPremium : bool;
  premiumUntil : option Z;      (* a Date, in milliseconds *)
  wins : N;                     (* a counter: starts at 0, only ever [+= 1] *)
  referrals : N;
  discountCodes : list string
}.

Record Entry := mkEntry {
  userId : string;
  prediction : string;
  entryFee : float
}.

Record Match := mkMatch {
  matchId : string;
  sport : string;
  home : string;
  away : string;
  date : Z;
  result : string;              (* 'pending', then 'home', 'away' or 'draw' *)
  pool : float;
  entries : list Entry
}.

(** The database: [User.findOne({ uid })] and [Match.findOne({ matchId })]
    are lookups, [doc.save()] is an insert under the same key. *)
Record DB := mkDB {
  users : gmap string User;
  matches : gmap string Match
}.

Definition save_user (k : string) (u : User) (db : DB) : DB :=
  mkDB (<[k := u]> (users db)) (matches db).

Definition save_match (k : string) (m : Match) (db : DB) : DB :=
  mkDB (users db) (<[k := m]> (matches db)).

Definition pending (m : Match) : bool := String.eqb (result m) "pending".

(** ** [POST /join-challenge] *)

Inductive Response :=
| JoinOk (pool : float)                  (* { success: true, pool } *)
| SubscribeOk (premiumUntil : Z)         (* { success: true, premiumUntil } *)
| JsonError (status : Z) (error : string)
| ServerError.                           (* 500 { error: err.message } *)

Definition debit (amount : float) (u : User) : User :=
  mkUser (uid u) (username u) (PrimFloat.sub (piBalance u) amount) (isPremium u)
         (premiumUntil u) (wins u) (referrals u) (discountCodes u).

Definition push_entry (e : Entry) (m : Match) : Match :=
  mkMatch (matchId m) (sport m) (home m) (away m) (date m) (result m)
          (PrimFloat.add (pool m) (entryFee e)) (entries m ++ [e]).

(** The body's [entryFee] is optional and defaults to [0.5]; when present
    it is a JSON number (a body carrying a string or another value there
    is outside this definition).  [user.save()] and [match.save()] throw
    when the Number they are to store is NaN, and the handler then answers
    500 from its [catch]: before anything is stored when the new balance is
    NaN, with the debit already stored when the new pool total is NaN. *)
Definition join_challenge (user_id match_id pred : string) (fee : option float)
    (db : DB) : Response * DB :=
  let entry_fee := default 0.5%float fee in
  match users db !! user_id with
  | None => (JsonError 403 "Premium required", db)
  | Some user =>
      if negb (isPremium user) then (JsonError 403 "Premium required", db)
      else
        match matches db !! match_id with
        | None => (JsonError 400 "Invalid match", db)
        | Some m =>
            if negb (pending m) then (JsonError 400 "Invalid match", db)
            else if PrimFloat.ltb (piBalance user) entry_fee
            then (JsonError 400 "Insufficient balance", db)
            else
              let user' := debit entry_fee user in
              if PrimFloat.is_nan (piBalance user') then (ServerError, db)
              else
                let db1 := save_user user_id user' db in
                let m' := push_entry (mkEntry user_id pred entry_fee) m in
                if PrimFloat.is_nan (pool m') then (ServerError, db1)
                else (JoinOk (pool m'), save_match match_id m' db1)
        end
  end.

(** ** [settleMatch] *)

(** What the two sports APIs answer.  A request that fails makes
    [axios.get] throw. *)
Record Game := mkGame { home_team_score : float; visitor_team_score : float }.
Record Goals := mkGoals { goals_home : float; goals_away : float }.

Record World := mkWorld {
  nba_game : string -> option Game;                 (* GET /games/:id *)
  football_fixtures : string -> option (list Goals) (* GET /fixtures?id= *)
}.

(** [s.split(c)] *)
Fixpoint split (c : ascii) (s : string) : list string :=
  match s with
  | EmptyString => [EmptyString]
  | String a s' =>
      if Ascii.eqb a c then EmptyString :: split c s'
      else match split c s' with
           | [] => [String a EmptyString]
           | w :: ws => String a w :: ws
           end
  end.

(** [`${match.matchId.split('_')[1]}`]: a missing component prints as
    [undefined]. *)
Definition external_id (m : Match) : string :=
  match split "_"%char (matchId m) with
  | _ :: x :: _ => x
  | _ => "undefined"
  end.

(** The result fetched for a match; [None] when the lookup throws. *)
Definition fetch_result (w : World) (m : Match) : option string :=
  if String.eqb (sport m) "nba" then
    game ← nba_game w (external_id m);
    Some (if PrimFloat.ltb (visitor_team_score game) (home_team_score game)
          then "home" else "away")
  else
    response ← football_fixtures w (external_id m);
    match response with
    | [] => None                   (* response[0] is undefined *)
    | goals :: _ =>
        Some (if PrimFloat.ltb (goals_away goals) (goals_home goals) then "home"
              else if PrimFloat.ltb (goals_home goals) (goals_away goals) then "away"
              else "draw")
    end.

Definition set_result (r : string) (m : Match) : Match :=
  mkMatch (matchId m) (sport m) (home m) (away m) (date m) r (pool m) (entries m).

Definition winners_of (r : string) (m : Match) : list Entry :=
  List.filter (fun e => String.eqb (prediction e) r) (entries m).

Definition houseCut (m : Match) : float := PrimFloat.mul (pool m) 0.1%float.

Definition payoutPerWinner (m : Match) (winner_count : nat) : float :=
  PrimFloat.div (PrimFloat.sub (pool m) (houseCut m)) (Number.of_nat winner_count).

(** One turn of the winners loop on the stored user. *)
Definition credit_winner (payout : float) (u : User) : User :=
  let wins' := Number.succ (wins u) in
  mkUser (uid u) (username u) (PrimFloat.add (piBalance u) payout) (isPremium u)
         (premiumUntil u) wins' (referrals u)
         (discountCodes u ++ ["WIN10_" +:+ pretty wins']).

(** How a call of an async function ends. *)
Inductive Completion := Returned | Threw.

(** [for (let w of winners) { ... }]: a winner whose user is not stored makes
    [user.piBalance] throw, and a credited balance that is NaN makes
    [user.save()] throw, in both cases after the earlier winners have been
    saved. *)
Fixpoint credit_winners (payout : float) (ws : list Entry) (db : DB)
    : Completion * DB :=
  match ws with
  | [] => (Returned, db)
  | w :: ws' =>
      match users db !! userId w with
      | None => (Threw, db)
      | Some u =>
          let u' := credit_winner payout u in
          if PrimFloat.is_nan (piBalance u') then (Threw, db)
          else credit_winners payout ws' (save_user (userId w) u' db)
      end
  end.

Definition settleMatch (w : World) (match_id : string) (db : DB)
    : Completion * DB :=
  match matches db !! match_id with
  | None => (Threw, db)                       (* match is null *)
  | Some m =>
      if negb (pending m) then (Returned, db)
      else
        match fetch_result w m with
        | None => (Threw, db)
        | Some r =>
            let db1 := save_match match_id (set_result r m) db in
            let winners := winners_of r m in
            match winners with
            | [] => (Returned, db1)
            | _ :: _ =>
                credit_winners (payoutPerWinner m (length winners)) winners db1
            end
        end
  end.

(** ** [POST /subscribe] *)

(** A body field that is absent, or the empty string, is falsy. *)
Definition truthy (code : option string) : bool :=
  match code with
  | Some (String _ _) => true
  | _ => false
  end.

Definition subscription_price (code : option string) : float :=
  match code with
  | Some c =>
      if truthy code && String.prefix "WIN10_" c then 0.45%float else 0.5%float
  | None => 0.5%float
  end.

Definition thirty_days : Z := 30 * 24 * 60 * 60 * 1000.

Definition string_neqb (a b : string) : bool := negb (String.eqb a b).

Definition subscribe (user_id : string) (code : option string) (now : Z)
    (db : DB) : Response * DB :=
  let amount := subscription_price code in
  match users db !! user_id with
  | None => (JsonError 404 "User not found", db)
  | Some user =>
      if PrimFloat.ltb (piBalance user) amount
      then (JsonError 400 "Insufficient balance", db)
      else
        let until := (now + thirty_days)%Z in
        let codes :=
          match code with
          | Some c =>
              if truthy code then List.filter (string_neqb c) (discountCodes user)
              else discountCodes user
          | None => discountCodes user
          end in
        let user' :=
          mkUser (uid user) (username user) (PrimFloat.sub (piBalance user) amount)
                 true (Some until) (wins user) (referrals user) codes in
        (SubscribeOk until, save_user user_id user' db)
  end.


(** ** Notions the specification uses *)

(** The effect of the winners loop on the users collection when every
    winner is stored: one [credit_winner] per winning entry, in order. *)
Definition credit_all (payout : float) (ws : list Entry)
    (us : gmap string User) : gmap string User :=
  foldl (fun us w => alter (credit_winner payout) (userId w) us) us ws.

(** [entries.reduce((a, e) => a + e.entryFee, 0)]: the Number sum of the
    recorded fees, taken in entry order. *)
Definition sum_fees (es : list Entry) : float :=
  fold_left (fun acc e => PrimFloat.add acc (entryFee e)) es 0%float.

(** [houseCut + payout + ... + payout], one payout per winner, as a Number. *)
Definition settled_total (m : Match) (winner_count : nat) : float :=
  fold_left PrimFloat.add
            (repeat (payoutPerWinner m winner_count) winner_count) (houseCut m).

(** The same total without rounding the additions. *)
Definition settled_total_exact (m : Match) (winner_count : nat) : option Q :=
  h ← Number.value (houseCut m);
  p ← Number.value (payoutPerWinner m winner_count);
  Some (h + inject_Z (Z.of_nat winner_count) * p)%Q.

(** No stored balance is negative. *)
Definition balances_ok (db : DB) : Prop :=
  forall k u, users db !! k = Some u -> Number.negative (piBalance u) = false.

(** Every stored pool total is the sum of the fees of its entries. *)
Definition pools_ok (db : DB) : Prop :=
  forall k m, matches db !! k = Some m -> pool m = sum_fees (entries m).

(** No stored balance and no stored pool total is NaN: what Mongoose keeps
    true of the stored documents. *)
Definition no_nan (db : DB) : Prop :=
  (forall k u, users db !! k = Some u -> PrimFloat.is_nan (piBalance u) = false)
  /\ (forall k m, matches db !! k = Some m -> PrimFloat.is_nan (pool m) = false).

Definition no_nan_b (db : DB) : bool :=
  forallb (fun kv => negb (PrimFloat.is_nan (piBalance (snd kv))))
          (map_to_list (users db))
  && forallb (fun kv => negb (PrimFloat.is_nan (pool (snd kv))))
             (map_to_list (matches db)).

(** The exact sum of the recorded fees ([None] when one is not finite). *)
Fixpoint exact_sum_fees (es : list Entry) : option Q :=
  match es with
  | [] => Some 0%Q
  | e :: es' =>
      f ← Number.value (entryFee e);
      s ← exact_sum_fees es';
      Some (f + s)%Q
  end.

(** A body of [POST /join-challenge]. *)
Record JoinRequest := mkJoin {
  req_userId : string;
  req_matchId : string;
  req_prediction : string;
  req_entryFee : option float
}.

Definition join (r : JoinRequest) (db : DB) : Response * DB :=
  join_challenge (req_userId r) (req_matchId r) (req_prediction r)
                 (req_entryFee r) db.

(** A sequence of join calls served one after the other. *)
Definition run_joins (rs : list JoinRequest) (db : DB) : DB :=
  foldl (fun db r => snd (join r db)) db rs.

Definition entries_of (user_id : string) (m : Match) : list Entry :=
  List.filter (fun e => String.eqb (userId e) user_id) (entries m).

(** The caller passes the premium gate. *)
Definition eligible (user_id : string) (db : DB) : bool :=
  match users db !! user_id with
  | Some u => isPremium u
  | None => false
  end.

(** The six ways a join call ends. *)
Variant join_case (user_id match_id pred : string) (fee : float) (db : DB)
  : Response * DB -> Prop :=
| join_no_premium :
    eligible user_id db = false ->
    join_case user_id match_id pred fee db
              (JsonError 403 "Premium required", db)
| join_invalid_match :
    eligible user_id db = true ->
    (forall m, matches db !! match_id = Some m -> pending m = false) ->
    join_case user_id match_id pred fee db (JsonError 400 "Invalid match", db)
| join_insufficient u m :
    users db !! user_id = Some u -> isPremium u = true ->
    matches db !! match_id = Some m -> pending m = true ->
    PrimFloat.ltb (piBalance u) fee = true ->
    join_case user_id match_id pred fee db
              (JsonError 400 "Insufficient balance", db)
| join_debit_refused u m :
    users db !! user_id = Some u -> isPremium u = true ->
    matches db !! match_id = Some m -> pending m = true ->
    PrimFloat.ltb (piBalance u) fee = false ->
    PrimFloat.is_nan (PrimFloat.sub (piBalance u) fee) = true ->
    join_case user_id match_id pred fee db (ServerError, db)
| join_total_refused u m :
    users db !! user_id = Some u -> isPremium u = true ->
    matches db !! match_id = Some m -> pending m = true ->
    PrimFloat.ltb (piBalance u) fee = false ->
    PrimFloat.is_nan (PrimFloat.sub (piBalance u) fee) = false ->
    PrimFloat.is_nan (PrimFloat.add (pool m) fee) = true ->
    join_case user_id match_id pred fee db
              (ServerError, save_user user_id (debit fee u) db)
| join_accepted u m :
    users db !! user_id = Some u -> isPremium u = true ->
    matches db !! match_id = Some m -> pending m = true ->
    PrimFloat.ltb (piBalance u) fee = false ->
    PrimFloat.is_nan (PrimFloat.sub (piBalance u) fee) = false ->
    PrimFloat.is_nan (PrimFloat.add (pool m) fee) = false ->
    join_case user_id match_id pred fee db
              (JoinOk (PrimFloat.add (pool m) fee),
               save_match match_id (push_entry (mkEntry user_id pred fee) m)
                          (save_user user_id (debit fee u) db)).

(** The errors of the specification's [join] contract. *)
Inductive JoinError :=
| PoolNotFound | PoolNotPending | PredictionInvalid
| NotEligible | InsufficientFunds | DuplicateEntry.

Definition outcome_labels : list string := ["home"; "away"; "draw"].

(** The order of checks as section 4.2 of the specification words it: pool
    exists; pool is pending; the prediction is a valid label; the caller is
    eligible; the fee is at most the balance.  [None] when all pass. *)
Definition spec_join_failure (user_id match_id pred : string) (fee : float)
    (db : DB) : option JoinError :=
  match matches db !! match_id with
  | None => Some PoolNotFound
  | Some m =>
      if negb (pending m) then Some PoolNotPending
      else if negb (existsb (String.eqb pred) outcome_labels)
      then Some PredictionInvalid
      else if negb (eligible user_id db) then Some NotEligible
      else
        match users db !! user_id with
        | Some u =>
            if PrimFloat.leb fee (piBalance u) then None
            else Some InsufficientFunds
        | None => Some NotEligible
        end
  end.

(** The error of the contract that each error response of the handler
    stands for ('Invalid match' covers both pool errors). *)
Definition join_errors (r : Response) : list JoinError :=
  match r with
  | JsonError 403 _ => [NotEligible]
  | JsonError 400 "Invalid match" => [PoolNotFound; PoolNotPending]
  | JsonError 400 _ => [InsufficientFunds]
  | _ => []
  end.

(** The payout the specification words: the distributable amount divided
    among the winners and rounded down to a whole number of units [u]. *)
Definition spec_payout (u : Q) (m : Match) (winner_count : nat) : option Q :=
  t ← Number.value (pool m);
  h ← Number.value (houseCut m);
  Some (Number.floor_to_unit u ((t - h) / inject_Z (Z.of_nat winner_count)))%Q.

(** ** [POST /refer] *)

(** [newUserId] is read from the body and not used.  A referrer that is not
    stored makes [referrer.referrals] throw. *)
Definition refer (referrer_id new_user_id : string) (db : DB)
    : Completion * DB :=
  match users db !! referrer_id with
  | None => (Threw, db)
  | Some r =>
      (Returned,
       save_user referrer_id
         (mkUser (uid r) (username r) (PrimFloat.add (piBalance r) 0.1%float)
                 (isPremium r) (premiumUntil r) (wins r)
                 (Number.succ (referrals r)) (discountCodes r))
         db)
  end.

(** ** [GET /matches] *)

(** What the two listing requests answer; [None] when the request (or
    reading its body) throws. *)
Record ApiGame := mkApiGame {
  game_id : string;             (* as `${game.id}` prints it *)
  home_full_name : string;
  visitor_full_name : string;
  game_date : Z
}.

Record ApiFixture := mkApiFixture {
  fixture_id : string;          (* as `${fix.fixture.id}` prints it *)
  fixture_home : string;
  fixture_away : string;
  fixture_date : Z
}.

Record Feeds := mkFeeds {
  nba_games : option (list ApiGame);           (* GET /games?per_page=5 *)
  football_next : option (list ApiFixture)     (* GET /fixtures?league=39&next=5 *)
}.

(** The object [{ matchId, sport, home, away, date }] built for a game. *)
Record Listing := mkListing {
  l_matchId : string;
  l_sport : string;
  l_home : string;
  l_away : string;
  l_date : Z
}.

Definition nba_listing (g : ApiGame) : Listing :=
  mkListing ("nba_" +:+ game_id g) "nba" (home_full_name g)
            (visitor_full_name g) (game_date g).

Definition football_listing (f : ApiFixture) : Listing :=
  mkListing ("fb_" +:+ fixture_id f) "football" (fixture_home f)
            (fixture_away f) (fixture_date f).

(** [Match.findOneAndUpdate({ matchId }, m, { upsert: true })]: a stored
    match gets the five listed fields and keeps the others; a new one is
    inserted with the schema defaults for [result], [pool] and [entries]. *)
Definition upsert (l : Listing) (db : DB) : DB :=
  match matches db !! l_matchId l with
  | Some m =>
      save_match (l_matchId l)
        (mkMatch (l_matchId l) (l_sport l) (l_home l) (l_away l) (l_date l)
                 (result m) (pool m) (entries m))
        db
  | None =>
      save_match (l_matchId l)
        (mkMatch (l_matchId l) (l_sport l) (l_home l) (l_away l) (l_date l)
                 "pending" 0 [])
        db
  end.

Definition upsert_all (ls : list Listing) (db : DB) : DB :=
  foldl (fun db l => upsert l db) db ls.

Definition fetch_listings (f : Feeds) : option (list Listing) :=
  games ← nba_games f;
  fixtures ← football_next f;
  Some (map nba_listing games ++ map football_listing fixtures)%list.

Definition date_le (a b : Match) : Prop := (date a <= date b)%Z.

#[global] Instance date_le_dec (a b : Match) : Decision (date_le a b) :=
  decide (date a <= date b)%Z.

(** [Match.find({ result: 'pending' }).sort({ date: 1 })] *)
Definition pending_by_date (db : DB) : list Match :=
  merge_sort date_le (List.filter pending (map snd (map_to_list (matches db)))).

Inductive MatchesResponse :=
| MatchList (l : list Match)
| MatchesError.                          (* 500 { error: err.message } *)

Definition get_matches (f : Feeds) (db : DB) : MatchesResponse * DB :=
  match fetch_listings f with
  | None => (MatchesError, db)
  | Some ls =>
      let db' := upsert_all ls db in
      (MatchList (pending_by_date db'), db')
  end.

(** ** [GET /leaderboard] *)

Definition more_wins (a b : User) : Prop := (wins b <= wins a)%N.

#[global] Instance more_wins_dec (a b : User) : Decision (more_wins a b) :=
  decide (wins b <= wins a)%N.

(** [User.find().sort({ wins: -1 }).limit(10)], mapped to
    [{ username, wins }]. *)
Definition leaderboard (db : DB) : list (string * N) :=
  map (fun u => (username u, wins u))
      (take 10 (merge_sort more_wins (map snd (map_to_list (users db))))).

(** ** Requests in sequence *)

Inductive Request :=
| ReqJoin (r : JoinRequest)
| ReqSettle (w : World) (match_id : string)
| ReqSubscribe (user_id : string) (code : option string) (now : Z)
| ReqRefer (referrer_id new_user_id : string)
| ReqMatches (f : Feeds).

Definition serve (rq : Request) (db : DB) : DB :=
  match rq with
  | ReqJoin r => snd (join r db)
  | ReqSettle w match_id => snd (settleMatch w match_id db)
  | ReqSubscribe user_id code now => snd (subscribe user_id code now db)
  | ReqRefer referrer_id new_user_id => snd (refer referrer_id new_user_id db)
  | ReqMatches f => snd (get_matches f db)
  end.

Definition serve_all (rqs : list Request) (db : DB) : DB :=
  foldl (fun db rq => serve rq db) db rqs.

Definition is_settle (rq : Request) : bool :=
  match rq with
  | ReqSettle _ _ => true
  | _ => false
  end.

(** The reward code issued at a user's [k]-th win. *)
Definition issued_code (k : N) : string := "WIN10_" +:+ pretty k.

(** The codes a user holds are distinct codes issued for wins the user has
    had. *)
Definition codes_ok (u : User) : Prop :=
  NoDup (discountCodes u)
  /\ Forall (fun c => exists k, c = issued_code k /\ (k <= wins u)%N)
            (discountCodes u).

Definition all_codes_ok (db : DB) : Prop :=
  forall k u, users db !! k = Some u -> codes_ok u.

(** The same for the users whose win counter is below 2^53, the range in
    which a Number counts by one. *)
Definition counted_codes_ok (db : DB) : Prop :=
  forall k u, users db !! k = Some u -> (wins u < 2 ^ 53)%N -> codes_ok u.

(** The number of winning entries a user holds. *)
Definition entry_count (user_id : string) (ws : list Entry) : nat :=
  length (List.filter (fun e => String.eqb (userId e) user_id) ws).


(** The money state of a match: what joins and settlement act on. *)
Definition stakes (m : Match) : string * float * list Entry :=
  (result m, pool m, entries m).

(** [s.includes(c)] *)
Fixpoint occurs (c : ascii) (s : string) : bool :=
  match s with
  | EmptyString => false
  | String a s' => Ascii.eqb a c || occurs c s'
  end.

(** The stakes of a match that nobody has joined yet. *)
Definition no_stakes : string * float * list Entry := ("pending", 0%float, []).

(** ** Concrete databases *)

Module Example.

Definition premium (id : string) (balance : float) : User :=
  mkUser id id balance true None 0 0 [].

Definition basic (id : string) (balance : float) : User :=
  mkUser id id balance false None 0 0 [].

Definition fresh (id sp : string) : Match :=
  mkMatch id sp "Home" "Away" 0 "pending" 0 [].

Definition nba_answer (h v : float) : World :=
  mkWorld (fun _ => Some (mkGame h v)) (fun _ => None).

Definition football_answer (h a : float) : World :=
  mkWorld (fun _ => None) (fun _ => Some [mkGoals h a]).

(** Three default stakes, two of them on the home side. *)
Definition three_pool : Match :=
  mkMatch "nba_1" "nba" "Home" "Away" 0 "pending" 1.5
          [mkEntry "ann" "home" 0.5; mkEntry "bob" "home" 0.5;
           mkEntry "cy" "away" 0.5].

Definition three_db : DB :=
  mkDB (list_to_map [("ann", premium "ann" 0); ("bob", premium "bob" 0);
                     ("cy", premium "cy" 0)])
       {[ "nba_1" := three_pool ]}.

Definition three_settled : DB :=
  snd (settleMatch (nba_answer 101 99) "nba_1" three_db).

(** Six default stakes, all on the home side. *)
Definition six_ids : list string := ["u1"; "u2"; "u3"; "u4"; "u5"; "u6"].

Definition six_pool : Match :=
  mkMatch "nba_2" "nba" "Home" "Away" 0 "pending" 3
          (map (fun k => mkEntry k "home" 0.5) six_ids).

Definition six_db : DB :=
  mkDB (list_to_map (map (fun k => (k, premium k 0)) six_ids))
       {[ "nba_2" := six_pool ]}.

Definition six_settled : DB :=
  snd (settleMatch (nba_answer 101 99) "nba_2" six_db).

(** The scenario of the specification: a total of 10 and three winners. *)
Definition ten_pool : Match :=
  mkMatch "fb_3" "football" "Home" "Away" 0 "pending" 10
          [mkEntry "ann" "draw" 2.5; mkEntry "bob" "draw" 2.5;
           mkEntry "cy" "draw" 2.5; mkEntry "dan" "home" 2.5].

Definition ten_db : DB :=
  mkDB (list_to_map [("ann", premium "ann" 1); ("bob", premium "bob" 0);
                     ("cy", premium "cy" 0); ("dan", premium "dan" 4)])
       {[ "fb_3" := ten_pool ]}.

(** A tied NBA game with one stake on each side. *)
Definition tied_pool : Match :=
  mkMatch "nba_4" "nba" "Home" "Away" 0 "pending" 1
          [mkEntry "ann" "home" 0.5; mkEntry "bob" "away" 0.5].

Definition tied_db : DB :=
  mkDB (list_to_map [("ann", premium "ann" 0); ("bob", premium "bob" 0)])
       {[ "nba_4" := tied_pool ]}.

(** Both stakes on the away side. *)
Definition away_pool : Match :=
  mkMatch "nba_6" "nba" "Home" "Away" 0 "pending" 1
          [mkEntry "ann" "away" 0.5; mkEntry "bob" "away" 0.5].

Definition away_db : DB :=
  mkDB (list_to_map [("ann", premium "ann" 0); ("bob", premium "bob" 0)])
       {[ "nba_6" := away_pool ]}.

(** One premium user with a balance of 1, one user without premium, and
    an empty pending pool. *)
Definition open_db : DB :=
  mkDB (list_to_map [("ann", premium "ann" 1); ("eve", basic "eve" 1)])
       {[ "fb_5" := fresh "fb_5" "football" ]}.

Definition twice : list JoinRequest :=
  [mkJoin "ann" "fb_5" "home" None; mkJoin "ann" "fb_5" "draw" None].

Definition mixed : list JoinRequest :=
  [mkJoin "ann" "fb_5" "home" (Some 0.1%float);
   mkJoin "eve" "fb_5" "home" None;
   mkJoin "ann" "fb_5" "away" (Some 0.2%float);
   mkJoin "ann" "fb_5" "draw" (Some 0.3%float);
   mkJoin "ann" "fb_5" "draw" (Some 5%float)].

(** [open_db] after a first join of ann with the default fee. *)
Definition once_pool : Match :=
  mkMatch "fb_5" "football" "Home" "Away" 0 "pending" 0.5
          [mkEntry "ann" "home" 0.5].

Definition once_db : DB :=
  snd (join (mkJoin "ann" "fb_5" "home" None) open_db).

(** A user holding no reward code. *)
Definition no_code_db : DB :=
  mkDB {[ "ann" := basic "ann" 1 ]} ∅.

(** Two listed games, the second already stored and settled, and a
    fixture. *)
Definition feeds : Feeds :=
  mkFeeds (Some [mkApiGame "41" "Hawks" "Bulls" 300;
                 mkApiGame "1" "Nets" "Heat" 100])
          (Some [mkApiFixture "77" "Leeds" "Stoke" 200]).

Definition stale_db : DB :=
  mkDB (list_to_map [("ann", premium "ann" 1); ("bob", premium "bob" 2)])
       (list_to_map
          [("nba_1", mkMatch "nba_1" "nba" "Home" "Away" 0 "home" 1
                             [mkEntry "ann" "home" 0.5; mkEntry "bob" "away" 0.5]);
           ("fb_5", fresh "fb_5" "football")]).

(** One user staking twice on the same side. *)
Definition double_pool : Match :=
  mkMatch "nba_8" "nba" "Home" "Away" 0 "pending" 1
          [mkEntry "ann" "home" 0.5; mkEntry "ann" "home" 0.5].

Definition double_db : DB :=
  mkDB {[ "ann" := premium "ann" 0 ]} {[ "nba_8" := double_pool ]}.

(** A winning entry whose user is not stored, between two that are. *)
Definition gap_pool : Match :=
  mkMatch "nba_9" "nba" "Home" "Away" 0 "pending" 1.5
          [mkEntry "ann" "home" 0.5; mkEntry "zed" "home" 0.5;
           mkEntry "bob" "home" 0.5].

Definition gap_db : DB :=
  mkDB (list_to_map [("ann", premium "ann" 0); ("bob", premium "bob" 0)])
       {[ "nba_9" := gap_pool ]}.

Definition busy : list Request :=
  [ReqMatches feeds;
   ReqJoin (mkJoin "ann" "nba_41" "home" None);
   ReqRefer "bob" "ann";
   ReqSettle (nba_answer 101 99) "nba_41";
   ReqSubscribe "ann" (Some "WIN10_1") 1000;
   ReqJoin (mkJoin "bob" "nba_41" "away" None)].

End Example.

(** * Facts about binary64 arithmetic

    The comparisons and the subtraction of Numbers, read through their
    specification ([FloatAxioms]) on [spec_float]. *)

Module Binary64.
Import Number.
Local Open Scope Z_scope.

Lemma digits2_pos_bounds (m : positive) :
  2 ^ (Z.pos (digits2_pos m) - 1) <= Z.pos m < 2 ^ Z.pos (digits2_pos m).
Proof.
  induction m as [m IH | m IH |]; cbn [digits2_pos].
  - rewrite Pos2Z.inj_succ.
    replace (Z.succ (Z.pos (digits2_pos m)) - 1) with (Z.succ (Z.pos (digits2_pos m) - 1)) by lia.
    rewrite !Z.pow_succ_r by lia. lia.
  - rewrite Pos2Z.inj_succ.
    replace (Z.succ (Z.pos (digits2_pos m)) - 1) with (Z.succ (Z.pos (digits2_pos m) - 1)) by lia.
    rewrite !Z.pow_succ_r by lia. lia.
  - cbn. lia.
Qed.

Lemma shl_align_value (m : positive) (e e' : Z) :
  e' <= e -> Z.pos (fst (shl_align m e e')) = Z.pos m * 2 ^ (e - e').
Proof.
  intros He. unfold shl_align.
  destruct (e' - e) as [| d | d] eqn:Hd; cbn [fst]; try lia.
  - replace (e - e') with 0 by lia. lia.
  - change (Pos.iter xO m d) with (shift_pos d m).
    rewrite shift_pos_correct, Z.pow_pos_fold.
    replace (e - e') with (Z.pos d) by lia. lia.
Qed.

Lemma bounded_inv (m : positive) (e : Z) :
  bounded prec emax m e = true ->
  SpecFloat.emin prec emax <= e /\ Z.pos (digits2_pos m) <= prec /\
  (SpecFloat.emin prec emax < e -> Z.pos (digits2_pos m) = prec).
Proof.
  unfold bounded, canonical_mantissa, fexp. intros H.
  apply andb_prop in H as [H _]. apply Z.eqb_eq in H. lia.
Qed.

(** On canonical mantissas the lexicographic comparison of [SFcompare]
    is the comparison of the aligned mantissas. *)
Lemma compare_aligned (mx my : positive) (ex ey : Z) :
  bounded prec emax mx ex = true -> bounded prec emax my ey = true ->
  match ex ?= ey with
  | Lt => Lt
  | Gt => Gt
  | Eq => Pos.compare_cont Eq mx my
  end = (aligned mx ex ey ?= aligned my ey ex).
Proof.
  intros Hx Hy. unfold aligned.
  apply bounded_inv in Hx as (Hx1 & Hx2 & Hx3).
  apply bounded_inv in Hy as (Hy1 & Hy2 & Hy3).
  pose proof (digits2_pos_bounds mx) as Bx.
  pose proof (digits2_pos_bounds my) as By.
  rewrite !shl_align_value by lia.
  destruct (Z.compare_spec ex ey) as [E | L | G].
  - subst ey. rewrite Z.min_id, Z.sub_diag, !Z.mul_1_r. reflexivity.
  - symmetry. apply Z.compare_lt_iff.
    rewrite (Z.min_l ex ey), (Z.min_r ey ex), Z.sub_diag, Z.mul_1_r by lia.
    rewrite (Hy3 ltac:(lia)) in By. 
    assert (2 ^ Z.pos (digits2_pos mx) <= 2 ^ prec) by (apply Z.pow_le_mono_r; lia).
    assert (2 * 1 <= 2 ^ (ey - ex)).
    { replace (ey - ex) with (Z.succ (ey - ex - 1)) by lia.
      rewrite Z.pow_succ_r by lia. 
      assert (0 < 2 ^ (ey - ex - 1)) by (apply Z.pow_pos_nonneg; lia). lia. }
    apply Z.lt_le_trans with (2 ^ prec); [lia |].
    apply Z.le_trans with (2 ^ (prec - 1) * (2 * 1)); [reflexivity |].
    apply Z.mul_le_mono_nonneg; lia.
  - symmetry. apply Z.compare_gt_iff.
    rewrite (Z.min_r ex ey), (Z.min_l ey ex), Z.sub_diag, Z.mul_1_r by lia.
    rewrite (Hx3 ltac:(lia)) in Bx. 
    assert (2 ^ Z.pos (digits2_pos my) <= 2 ^ prec) by (apply Z.pow_le_mono_r; lia).
    assert (2 * 1 <= 2 ^ (ex - ey)).
    { replace (ex - ey) with (Z.succ (ex - ey - 1)) by lia.
      rewrite Z.pow_succ_r by lia. 
      assert (0 < 2 ^ (ex - ey - 1)) by (apply Z.pow_pos_nonneg; lia). lia. }
    apply Z.lt_le_trans with (2 ^ prec); [lia |].
    apply Z.le_trans with (2 ^ (prec - 1) * (2 * 1)); [reflexivity |].
    apply Z.mul_le_mono_nonneg; lia.
Qed.

Lemma SFltb_zero (x : spec_float) :
  SFltb x (S754_zero false) = true -> sign_bit x = true.
Proof. destruct x as [s | s | | s m e]; cbn; try discriminate; destruct s; auto; discriminate. Qed.

Lemma binary_round_aux_sign s m e l :
  SFltb (binary_round_aux prec emax s m e l) (S754_zero false) = true -> s = true.
Proof.
  unfold binary_round_aux.
  destruct (shr_fexp prec emax m e l) as [mrs' e'].
  destruct (shr_fexp prec emax _ e' loc_Exact) as [mrs'' e''].
  destruct (shr_m mrs'') as [| p | p]; [| destruct (e'' <=? emax - prec) |];
    intros H; first [discriminate H | apply SFltb_zero in H; exact H].
Qed.

Lemma binary_normalize_nonneg m e :
  0 <= m ->
  SFltb (binary_normalize prec emax m e false) (S754_zero false) = false.
Proof.
  intros Hm. destruct m as [| p | p]; [reflexivity | | lia].
  cbn [binary_normalize]. unfold binary_round.
  destruct (shl_align p e _) as [mz ez].
  destruct (SFltb _ _) eqn:E; [| reflexivity].
  apply binary_round_aux_sign in E. discriminate.
Qed.

Lemma SFsub_not_negative (x y : spec_float) :
  valid_binary x = true -> valid_binary y = true ->
  SFltb x y = false ->
  SFltb (SFsub prec emax x y) (S754_zero false) = false.
Proof.
  intros Vx Vy H.
  destruct x as [sx | sx | | sx mx ex], y as [sy | sy | | sy my ey];
    cbn [SFsub]; try reflexivity;
    try (destruct sx, sy; (reflexivity || discriminate H)).
  apply binary_normalize_nonneg.
  unfold valid_binary in Vx, Vy. cbn [SpecFloat.valid_binary] in Vx, Vy.
  pose proof (compare_aligned mx my ex ey Vx Vy) as C.
  unfold aligned in C. rewrite (Z.min_comm ey ex) in C.
  unfold SFltb, SFcompare in H.
  match type of C with _ = (?X ?= ?Y) => pose proof (Z.compare_spec X Y) as S end.
  rewrite <- C in S. clear C.
  destruct sx, sy; cbn [cond_Zopp]; try lia; try discriminate H;
    destruct (ex ?= ey); try discriminate H;
    try destruct (Pos.compare_cont Eq mx my); try discriminate H;
    inversion S; lia.
Qed.

(** [!(a < b)] makes [a - b < 0] false: the guarded debit of the two
    handlers cannot produce a negative balance. *)
Lemma sub_not_negative (a b : float) :
  PrimFloat.ltb a b = false -> PrimFloat.ltb (PrimFloat.sub a b) 0%float = false.
Proof.
  rewrite !FloatAxioms.ltb_spec, FloatAxioms.sub_spec.
  apply SFsub_not_negative; apply Prim2SF_valid.
Qed.

(** Anything that is not negative is not below a fee that is at most 0. *)
Lemma SFltb_across_zero (b f : spec_float) :
  SFleb f (S754_zero false) = true ->
  SFltb b (S754_zero false) = false ->
  SFltb b f = false.
Proof.
  destruct b as [sb | sb | | sb mb eb], f as [sf | sf | | sf mf ef];
    cbn; try reflexivity; try discriminate;
    destruct sb; try discriminate; destruct sf; try discriminate;
    reflexivity.
Qed.

Lemma ltb_across_zero (b f : float) :
  PrimFloat.leb f 0%float = true ->
  PrimFloat.ltb b 0%float = false ->
  PrimFloat.ltb b f = false.
Proof.
  rewrite !FloatAxioms.ltb_spec, FloatAxioms.leb_spec.
  apply SFltb_across_zero.
Qed.



(** The sum of two Numbers, neither of them negative, is not negative. *)
Lemma SFadd_not_negative (x y : spec_float) :
  SFltb x (S754_zero false) = false -> SFltb y (S754_zero false) = false ->
  SFltb (SFadd prec emax x y) (S754_zero false) = false.
Proof.
  intros Hx Hy.
  destruct x as [sx | sx | | sx mx ex], y as [sy | sy | | sy my ey];
    cbn [SFadd]; try reflexivity; try assumption;
    try (destruct sx, sy; (reflexivity || discriminate)).
  destruct sx; [discriminate Hx |]. destruct sy; [discriminate Hy |].
  apply binary_normalize_nonneg. cbn [cond_Zopp]. lia.
Qed.

Lemma add_not_negative (a b : float) :
  PrimFloat.ltb a 0%float = false -> PrimFloat.ltb b 0%float = false ->
  PrimFloat.ltb (PrimFloat.add a b) 0%float = false.
Proof.
  rewrite !FloatAxioms.ltb_spec, FloatAxioms.add_spec.
  apply SFadd_not_negative.
Qed.

(** ** Not a Number *)

Lemma SFeqb_refl (x : spec_float) : x <> S754_nan -> SFeqb x x = true.
Proof.
  unfold SFeqb. destruct x as [s | s | | s m e]; cbn; try done.
  - now destruct s.
  - intros _. destruct s; rewrite Z.compare_refl, Pcompare_refl; reflexivity.
Qed.

Lemma is_nan_false (a : float) :
  PrimFloat.is_nan a = false <-> Prim2SF a <> S754_nan.
Proof.
  unfold PrimFloat.is_nan. rewrite FloatAxioms.eqb_spec. split.
  - intros H E. rewrite E in H. discriminate H.
  - intros H. now rewrite SFeqb_refl.
Qed.

Lemma is_finite_true (p : float) :
  PrimFloat.is_finite p = true -> SF_finite (Prim2SF p).
Proof.
  unfold PrimFloat.is_finite, PrimFloat.is_nan, PrimFloat.is_infinity.
  rewrite !FloatAxioms.eqb_spec, FloatAxioms.abs_spec.
  change (Prim2SF infinity) with (S754_infinity false).
  destruct (Prim2SF p) as [s | s | | s m e]; cbn; try done.
  now destruct s.
Qed.

Lemma shr_1_nonneg (mrs : shr_record) :
  0 <= shr_m mrs -> 0 <= shr_m (shr_1 mrs).
Proof.
  destruct mrs as [m r s]. cbn.
  destruct m as [| [p | p |] | p]; cbn; lia.
Qed.

Lemma iter_shr_1_nonneg (p : positive) (mrs : shr_record) :
  0 <= shr_m mrs -> 0 <= shr_m (SpecFloat.iter_pos shr_1 p mrs).
Proof.
  revert mrs. induction p as [p IH | p IH |]; intros mrs H; cbn.
  - apply IH, IH. now apply shr_1_nonneg.
  - now apply IH, IH.
  - now apply shr_1_nonneg.
Qed.

Lemma shr_fexp_nonneg (m e : Z) (l : location) :
  0 <= m -> 0 <= shr_m (fst (shr_fexp prec emax m e l)).
Proof.
  intros Hm. unfold shr_fexp, shr.
  assert (H0 : 0 <= shr_m (shr_record_of_loc m l))
    by (destruct l as [| []]; exact Hm).
  destruct (fexp prec emax (Zdigits2 m + e) - e); cbn [fst]; try done.
  now apply iter_shr_1_nonneg.
Qed.

Lemma round_nearest_even_nonneg (m : Z) (l : location) :
  0 <= m -> 0 <= round_nearest_even m l.
Proof.
  intros Hm. destruct l as [| []]; cbn; try lia.
  destruct (Z.even m); lia.
Qed.

(** Rounding a non-negative mantissa never gives NaN. *)
Lemma binary_round_aux_not_nan (s : bool) (m e : Z) (l : location) :
  0 <= m -> binary_round_aux prec emax s m e l <> S754_nan.
Proof.
  intros Hm. unfold binary_round_aux.
  pose proof (shr_fexp_nonneg m e l Hm) as H1.
  destruct (shr_fexp prec emax m e l) as [mrs' e']. cbn [fst] in H1.
  pose proof (shr_fexp_nonneg _ e' loc_Exact
                (round_nearest_even_nonneg _ (loc_of_shr_record mrs') H1)) as H2.
  destruct (shr_fexp prec emax _ e' loc_Exact) as [mrs'' e'']. cbn [fst] in H2.
  destruct (shr_m mrs'') as [| p | p]; [done | | lia].
  now destruct (e'' <=? emax - prec).
Qed.

Lemma binary_normalize_not_nan (m e : Z) (szero : bool) :
  binary_normalize prec emax m e szero <> S754_nan.
Proof.
  destruct m as [| p | p]; cbn [binary_normalize]; [done | |];
    unfold binary_round; destruct (shl_align p e _) as [mz ez];
    now apply binary_round_aux_not_nan.
Qed.

Lemma SFadd_not_nan (x y : spec_float) :
  x <> S754_nan -> SF_finite y -> SFadd prec emax x y <> S754_nan.
Proof.
  intros Hx Hy.
  destruct x as [sx | sx | | sx mx ex], y as [sy | sy | | sy my ey];
    cbn [SFadd]; cbn in Hy; try done.
  - now destruct sx, sy.
  - apply binary_normalize_not_nan.
Qed.

Lemma SFsub_not_nan (x y : spec_float) :
  x <> S754_nan -> SF_finite y -> SFsub prec emax x y <> S754_nan.
Proof.
  intros Hx Hy.
  destruct x as [sx | sx | | sx mx ex], y as [sy | sy | | sy my ey];
    cbn [SFsub]; cbn in Hy; try done.
  - now destruct sx, sy.
  - apply binary_normalize_not_nan.
Qed.

(** Adding or subtracting a finite Number never turns a Number into NaN. *)
Lemma add_not_nan (a p : float) :
  PrimFloat.is_nan a = false -> PrimFloat.is_finite p = true ->
  PrimFloat.is_nan (PrimFloat.add a p) = false.
Proof.
  rewrite !is_nan_false, FloatAxioms.add_spec. intros Ha Hp.
  apply SFadd_not_nan; [done | now apply is_finite_true].
Qed.

Lemma sub_not_nan (a p : float) :
  PrimFloat.is_nan a = false -> PrimFloat.is_finite p = true ->
  PrimFloat.is_nan (PrimFloat.sub a p) = false.
Proof.
  rewrite !is_nan_false, FloatAxioms.sub_spec. intros Ha Hp.
  apply SFsub_not_nan; [done | now apply is_finite_true].
Qed.

(** A Number that is neither negative nor NaN is at least 0. *)
Lemma not_negative_leb (b : float) :
  PrimFloat.ltb b 0%float = false -> PrimFloat.is_nan b = false ->
  PrimFloat.leb 0%float b = true.
Proof.
  rewrite is_nan_false, FloatAxioms.ltb_spec, FloatAxioms.leb_spec.
  change (Prim2SF 0) with (S754_zero false).
  destruct (Prim2SF b) as [s | s | | s m e]; cbn; try done;
    destruct s; done.
Qed.

End Binary64.

(** * The winners loop *)

Lemma DB_eta (db : DB) : mkDB (users db) (matches db) = db.
Proof. now destruct db. Qed.

Lemma credit_winners_cons (payout : float) (w : Entry) (ws : list Entry)
    (db : DB) :
  credit_winners payout (w :: ws) db
  = match users db !! userId w with
    | None => (Threw, db)
    | Some u =>
        if PrimFloat.is_nan (piBalance (credit_winner payout u)) then (Threw, db)
        else credit_winners payout ws
               (save_user (userId w) (credit_winner payout u) db)
    end.
Proof. reflexivity. Qed.

Lemma credit_winners_matches (payout : float) (ws : list Entry) (db : DB) :
  matches (snd (credit_winners payout ws db)) = matches db.
Proof.
  revert db. induction ws as [| w ws IH]; intros db; [done |].
  rewrite credit_winners_cons.
  destruct (users db !! userId w); [| done].
  destruct (PrimFloat.is_nan _); [done |]. now rewrite IH.
Qed.

Lemma credit_all_cons (payout : float) (w : Entry) (ws : list Entry)
    (us : gmap string User) :
  credit_all payout (w :: ws) us
  = credit_all payout ws (alter (credit_winner payout) (userId w) us).
Proof. reflexivity. Qed.

(** With every winner stored, no stored balance NaN and a finite payout,
    no save is refused and the loop runs to its end. *)
Lemma credit_winners_returned (payout : float) (ws : list Entry) (db : DB) :
  Forall (fun w => is_Some (users db !! userId w)) ws ->
  (forall k u, users db !! k = Some u -> PrimFloat.is_nan (piBalance u) = false) ->
  PrimFloat.is_finite payout = true ->
  credit_winners payout ws db
  = (Returned, mkDB (credit_all payout ws (users db)) (matches db)).
Proof.
  intros Hall Hnan Hfin. revert db Hall Hnan.
  induction ws as [| w ws IH]; intros db Hall Hnan.
  - cbn. now rewrite DB_eta.
  - apply Forall_cons in Hall as [[u Hu] Hall].
    rewrite credit_winners_cons, Hu.
    assert (Hok : PrimFloat.is_nan (piBalance (credit_winner payout u)) = false)
      by (cbn; apply Binary64.add_not_nan; eauto).
    rewrite Hok, IH; cbn [save_user users matches].
    + rewrite credit_all_cons. do 3 f_equal. symmetry. now apply alter_alt_Some.
    + eapply Forall_impl; [exact Hall |]. intros w' Hw'. cbn in *.
      now apply lookup_insert_is_Some'; right.
    + intros k v. rewrite lookup_insert. case_decide; [| apply Hnan].
      now intros [= <-].
Qed.

(** A winner that is not stored stops the loop: the call throws. *)
Lemma credit_winners_threw (payout : float) (ws : list Entry) (db : DB) :
  Exists (fun w => users db !! userId w = None) ws ->
  fst (credit_winners payout ws db) = Threw.
Proof.
  revert db. induction ws as [| w ws IH]; intros db Hex.
  - now apply Exists_nil in Hex.
  - rewrite credit_winners_cons.
    destruct (users db !! userId w) as [u |] eqn:Hu; [| done].
    destruct (PrimFloat.is_nan _); [done |].
    apply IH. apply Exists_cons in Hex as [Hex | Hex]; [congruence |].
    eapply Exists_impl; [exact Hex |]. intros w' Hw'. cbn in *.
    apply lookup_insert_None. split; [done |].
    intros Heq. rewrite <- Heq in Hw'. congruence.
Qed.

Lemma credit_all_other (payout : float) (ws : list Entry) (us : gmap string User)
    (k : string) :
  k ∉ map userId ws -> credit_all payout ws us !! k = us !! k.
Proof.
  revert us. induction ws as [| w ws IH]; intros us Hk; [done |].
  cbn in Hk. apply not_elem_of_cons in Hk as [Hne Hk].
  rewrite credit_all_cons, IH by done. now apply lookup_alter_ne.
Qed.

(** A user with one winning entry is credited one payout. *)
Lemma credit_all_once (payout : float) (ws : list Entry) (us : gmap string User)
    (w : Entry) :
  NoDup (map userId ws) -> w ∈ ws ->
  credit_all payout ws us !! userId w = credit_winner payout <$> us !! userId w.
Proof.
  revert us. induction ws as [| w' ws IH]; intros us Hnd Hin.
  - now apply elem_of_nil in Hin.
  - cbn in Hnd. apply NoDup_cons in Hnd as [Hfresh Hnd].
    rewrite credit_all_cons.
    apply elem_of_cons in Hin as [-> | Hin].
    + rewrite credit_all_other by done. apply lookup_alter_eq.
    + rewrite IH by done. rewrite lookup_alter_ne; [done |].
      intros Heq. apply Hfresh. rewrite Heq.
      apply list_elem_of_fmap. now exists w.
Qed.

(** * Fetching the result *)

Lemma fetch_result_label (w : World) (m : Match) (r : string) :
  fetch_result w m = Some r -> r = "home" \/ r = "away" \/ r = "draw".
Proof.
  unfold fetch_result. intros H.
  destruct (String.eqb (sport m) "nba").
  - destruct (nba_game w (external_id m)) as [g |]; cbn in H; [| done].
    destruct (PrimFloat.ltb _ _); injection H as <-; auto.
  - destruct (football_fixtures w (external_id m)) as [[| g gs] |];
      cbn in H; try done.
    repeat destruct (PrimFloat.ltb _ _); injection H as <-; auto.
Qed.

Lemma fetch_result_not_pending (w : World) (m : Match) (r : string) :
  fetch_result w m = Some r -> pending (set_result r m) = false.
Proof.
  intros H. apply fetch_result_label in H as [-> | [-> | ->]]; reflexivity.
Qed.

(** * [settleMatch] by cases *)

Lemma settleMatch_settled (w : World) (id : string) (db : DB) (m : Match) :
  matches db !! id = Some m -> pending m = false ->
  settleMatch w id db = (Returned, db).
Proof. intros Hm Hp. unfold settleMatch. now rewrite Hm, Hp. Qed.

Lemma settleMatch_pending (w : World) (id : string) (db : DB) (m : Match)
    (r : string) :
  matches db !! id = Some m -> pending m = true -> fetch_result w m = Some r ->
  settleMatch w id db
  = match winners_of r m with
    | [] => (Returned, save_match id (set_result r m) db)
    | _ :: _ =>
        credit_winners (payoutPerWinner m (length (winners_of r m)))
                       (winners_of r m) (save_match id (set_result r m) db)
    end.
Proof. intros Hm Hp Hr. unfold settleMatch. now rewrite Hm, Hp, Hr. Qed.

(** Whenever the call returns, the stored match is no longer pending. *)
Lemma settleMatch_returned (w : World) (id : string) (db db' : DB) :
  settleMatch w id db = (Returned, db') ->
  exists m, matches db' !! id = Some m /\ pending m = false.
Proof.
  unfold settleMatch. intros H.
  destruct (matches db !! id) as [m |] eqn:Hm; [| done].
  destruct (pending m) eqn:Hp; cbn in H.
  - destruct (fetch_result w m) as [r |] eqn:Hr; [| done].
    exists (set_result r m). split; [| eauto using fetch_result_not_pending].
    destruct (winners_of r m) as [| e es].
    + injection H as <-. cbn. apply lookup_insert_eq.
    + apply (f_equal snd) in H. cbn [snd] in H. subst db'.
      rewrite credit_winners_matches. cbn. apply lookup_insert_eq.
  - injection H as <-. eauto.
Qed.

(** A first settlement whose winners are all stored, in a database without
    NaN and with a finite payout: the result is saved on the match and
    every winning entry is credited once. *)
Lemma settleMatch_credits (w : World) (id : string) (db : DB) (m : Match)
    (r : string) :
  matches db !! id = Some m -> pending m = true -> fetch_result w m = Some r ->
  Forall (fun e => is_Some (users db !! userId e)) (winners_of r m) ->
  no_nan db ->
  PrimFloat.is_finite (payoutPerWinner m (length (winners_of r m))) = true ->
  settleMatch w id db
  = (Returned,
     mkDB (credit_all (payoutPerWinner m (length (winners_of r m)))
                      (winners_of r m) (users db))
          (<[id := set_result r m]> (matches db))).
Proof.
  intros Hm Hp Hr Hall [Hnan _] Hfin.
  rewrite (settleMatch_pending w id db m r) by done.
  destruct (winners_of r m) as [| e es] eqn:Hw; [reflexivity |].
  now rewrite credit_winners_returned.
Qed.


Lemma no_nan_b_sound (db : DB) : no_nan_b db = true -> no_nan db.
Proof.
  unfold no_nan_b. intros [Hu Hm]%andb_prop.
  rewrite forallb_forall in Hu, Hm. split.
  - intros k u Hk. apply negb_true_iff.
    apply (Hu (k, u)). apply list_elem_of_In. now apply elem_of_map_to_list.
  - intros k m Hk. apply negb_true_iff.
    apply (Hm (k, m)). apply list_elem_of_In. now apply elem_of_map_to_list.
Qed.


(** * Settlement *)

(** C1. Settlement is idempotent: once a call of [settleMatch] on a pool has
    returned, any later call on the same pool (whatever the sports API now
    answers) returns in the same way and leaves the whole database as the
    first call left it: no balance, win counter or reward code changes, and
    the stored result stays. *)
Theorem settle_idempotent (w w' : World) (id : string) (db db' : DB) :
  settleMatch w id db = (Returned, db') ->
  settleMatch w' id db' = (Returned, db').
Proof.
  intros H. apply settleMatch_returned in H as (m & Hm & Hp).
  eauto using settleMatch_settled.
Qed.

Lemma settle_idempotent_witness :
  settleMatch (Example.nba_answer 101 99) "nba_1" Example.three_db
  = (Returned, Example.three_settled)
  /\ settleMatch (Example.nba_answer 90 120) "nba_1" Example.three_settled
     = (Returned, Example.three_settled).
Proof.
  assert (H : settleMatch (Example.nba_answer 101 99) "nba_1" Example.three_db
              = (Returned, Example.three_settled)) by (vm_compute; reflexivity).
  split; [exact H |].
  exact (settle_idempotent _ (Example.nba_answer 90 120) _ _ _ H).
Defined.

(** C6. When the fetched result matches no entry's prediction, settlement
    returns with every user document unchanged (nobody is credited), the
    pool total stays whole on the match (nothing of it is paid out), and
    the match leaves the pending state with the result recorded. *)
Theorem settle_without_winners (w : World) (id : string) (db : DB) (m : Match)
    (r : string) :
  matches db !! id = Some m -> pending m = true -> fetch_result w m = Some r ->
  winners_of r m = [] ->
  settleMatch w id db = (Returned, save_match id (set_result r m) db)
  /\ users (save_match id (set_result r m) db) = users db
  /\ matches (save_match id (set_result r m) db) !! id = Some (set_result r m)
  /\ pool (set_result r m) = pool m
  /\ result (set_result r m) = r
  /\ pending (set_result r m) = false.
Proof.
  intros Hm Hp Hr Hw. repeat split.
  - rewrite (settleMatch_pending w id db m r) by done. now rewrite Hw.
  - cbn. apply lookup_insert_eq.
  - eauto using fetch_result_not_pending.
Qed.

Lemma settle_without_winners_witness :
  settleMatch (Example.nba_answer 101 99) "nba_6" Example.away_db
  = (Returned,
     save_match "nba_6" (set_result "home" Example.away_pool) Example.away_db)
  /\ users (save_match "nba_6" (set_result "home" Example.away_pool)
                       Example.away_db)
     = users Example.away_db.
Proof.
  pose proof (settle_without_winners (Example.nba_answer 101 99) "nba_6"
                Example.away_db Example.away_pool "home"
                eq_refl eq_refl eq_refl eq_refl) as (H1 & H2 & _).
  exact (conj H1 H2).
Defined.



(** * Payout arithmetic *)

(** C2, as the specification words it, fails: with three default stakes and
    two winners each winner is credited 0.675 (the Number nearest to it),
    which is more than the amount floored to hundredths (0.67) and more than
    the amount floored to whole units (0). *)
Lemma payout_not_floored :
  settleMatch (Example.nba_answer 101 99) "nba_1" Example.three_db
  = (Returned, Example.three_settled)
  /\ length (winners_of "home" Example.three_pool) = 2%nat
  /\ piBalance <$> users Example.three_db !! "ann" = Some 0%float
  /\ piBalance <$> users Example.three_settled !! "ann"
     = Some (payoutPerWinner Example.three_pool 2)
  /\ Number.value (payoutPerWinner Example.three_pool 2)
     = Some (6079859496950170 # 9007199254740992)
  /\ spec_payout (1 # 100) Example.three_pool 2 = Some (67 # 100)
  /\ spec_payout 1 Example.three_pool 2 = Some 0%Q
  /\ (67 # 100 < 6079859496950170 # 9007199254740992)%Q
  /\ (0 < 6079859496950170 # 9007199254740992)%Q.
Proof. repeat split; vm_compute; reflexivity. Qed.

(** C2, amended.  For every pending pool whose fetched result has winners,
    all of them stored, in a database that holds no NaN and with a finite
    payout, settlement returns and credits each winning entry the Number
    [(pool - pool * 0.1) / winnerCount]: the plain quotient, not floored to
    any unit, with no remainder kept back.  A user with one winning entry
    ends with the old balance plus that payout, one more reward code and,
    while the win counter is below 2^53, one more win.  For a pool total of
    10 and three winners the payout is exactly 3. *)
Theorem payout_is_plain_quotient (w : World) (id : string) (db : DB)
    (m : Match) (r : string) :
  matches db !! id = Some m -> pending m = true -> fetch_result w m = Some r ->
  winners_of r m <> [] ->
  Forall (fun e => is_Some (users db !! userId e)) (winners_of r m) ->
  no_nan db ->
  let payout :=
    PrimFloat.div (PrimFloat.sub (pool m) (PrimFloat.mul (pool m) 0.1%float))
                  (Number.of_nat (length (winners_of r m))) in
  PrimFloat.is_finite payout = true ->
  exists db',
    settleMatch w id db = (Returned, db')
    /\ users db' = credit_all payout (winners_of r m) (users db)
    /\ (NoDup (map userId (winners_of r m)) ->
        forall e u, e ∈ winners_of r m -> users db !! userId e = Some u ->
        exists u', users db' !! userId e = Some u'
                   /\ piBalance u' = PrimFloat.add (piBalance u) payout
                   /\ ((wins u < 2 ^ 53)%N -> wins u' = (wins u + 1)%N)
                   /\ length (discountCodes u') = S (length (discountCodes u)))
    /\ (pool m = 10%float -> length (winners_of r m) = 3%nat ->
        payout = 3%float).
Proof.
  intros Hm Hp Hr Hne Hall Hnan payout Hfin.
  eexists. split;
    [exact (settleMatch_credits w id db m r Hm Hp Hr Hall Hnan Hfin) |].
  cbn [users]. split; [reflexivity |]. split.
  - intros Hnd e u He Hu.
    exists (credit_winner payout u). split.
    + change (payoutPerWinner m (length (winners_of r m))) with payout.
      now rewrite credit_all_once, Hu.
    + cbn. rewrite length_app. cbn. split; [done |]. split; [| lia].
      intros Hlt. unfold Number.succ.
      now destruct (N.ltb_spec (wins u) (2 ^ 53)); [| lia].
  - intros Hpool Hlen. subst payout. rewrite Hpool, Hlen. reflexivity.
Qed.

Lemma payout_is_plain_quotient_witness :
  piBalance <$> users Example.ten_db !! "ann" = Some 1%float
  /\ exists db',
       settleMatch (Example.football_answer 1 1) "fb_3" Example.ten_db
       = (Returned, db')
       /\ piBalance <$> users db' !! "ann" = Some 4%float.
Proof.
  split; [reflexivity |].
  destruct (payout_is_plain_quotient (Example.football_answer 1 1) "fb_3"
              Example.ten_db Example.ten_pool "draw" eq_refl eq_refl eq_refl)
    as (db' & Hs & Hu & _ & Hten).
  - discriminate.
  - repeat constructor; vm_compute; eauto.
  - apply no_nan_b_sound. vm_compute. reflexivity.
  - vm_compute. reflexivity.
  - exists db'. split; [exact Hs |].
    rewrite Hu, Hten by reflexivity. vm_compute. reflexivity.
Defined.

(** C3, as the specification words it, fails: with six default stakes that
    all win, the house cut 0.30000000000000004 and the six payouts of 0.45
    credited to the winners add up to 3.0000000000000004, which is more
    than the pool total 3, whether the sum is taken by Number additions or
    without any rounding. *)
Lemma payouts_exceed_pool :
  settleMatch (Example.nba_answer 101 99) "nba_2" Example.six_db
  = (Returned, Example.six_settled)
  /\ length (winners_of "home" Example.six_pool) = 6%nat
  /\ map (fun k => piBalance <$> users Example.six_db !! k) Example.six_ids
     = repeat (Some 0%float) 6
  /\ map (fun k => piBalance <$> users Example.six_settled !! k) Example.six_ids
     = repeat (Some (payoutPerWinner Example.six_pool 6)) 6
  /\ PrimFloat.ltb (pool Example.six_pool) (settled_total Example.six_pool 6)
     = true
  /\ exists h p t,
       Number.value (houseCut Example.six_pool) = Some h
       /\ Number.value (payoutPerWinner Example.six_pool 6) = Some p
       /\ Number.value (pool Example.six_pool) = Some t
       /\ (t < h + 6 * p)%Q.
Proof.
  repeat split; try (vm_compute; reflexivity).
  do 3 eexists. repeat split; try (vm_compute; reflexivity).
Qed.

(** C3, amended.  For every pending pool whose winners are all stored, in
    a database that holds no NaN and with a finite payout, settlement
    returns having credited the winning entries and nobody else (there is
    no house account and no remainder is set aside), each with the Number
    [(pool - pool * 0.1) / winnerCount] (binary64 operations, round to
    nearest even); the pool total and the entries on the match are not
    changed.  For a pool total of 10 with two or three winners the house cut
    plus the payouts is exactly 10. *)
Theorem house_cut_and_payouts (w : World) (id : string) (db : DB) (m : Match)
    (r : string) :
  matches db !! id = Some m -> pending m = true -> fetch_result w m = Some r ->
  Forall (fun e => is_Some (users db !! userId e)) (winners_of r m) ->
  no_nan db ->
  let n := length (winners_of r m) in
  let cut := PrimFloat.mul (pool m) 0.1%float in
  let payout := PrimFloat.div (PrimFloat.sub (pool m) cut) (Number.of_nat n) in
  PrimFloat.is_finite payout = true ->
  exists db',
    settleMatch w id db = (Returned, db')
    /\ users db' = credit_all payout (winners_of r m) (users db)
    /\ (forall k, k ∉ map userId (winners_of r m) ->
                  users db' !! k = users db !! k)
    /\ (NoDup (map userId (winners_of r m)) ->
        forall e u, e ∈ winners_of r m -> users db !! userId e = Some u ->
        piBalance <$> users db' !! userId e
        = Some (PrimFloat.add (piBalance u) payout))
    /\ (exists m', matches db' !! id = Some m' /\ pool m' = pool m
                   /\ entries m' = entries m /\ result m' = r)
    /\ (pool m = 10%float -> n = 2%nat \/ n = 3%nat ->
        PrimFloat.add cut (PrimFloat.mul (Number.of_nat n) payout) = 10%float
        /\ settled_total m n = 10%float
        /\ exists q, settled_total_exact m n = Some q /\ (q == 10)%Q).
Proof.
  intros Hm Hp Hr Hall Hnan n cut payout Hfin.
  eexists. split;
    [exact (settleMatch_credits w id db m r Hm Hp Hr Hall Hnan Hfin) |].
  cbn [users matches]. split; [reflexivity |]. split.
  { intros k Hk. now apply credit_all_other. }
  split.
  { intros Hnd e u He Hu.
    change (payoutPerWinner m (length (winners_of r m))) with payout.
    now rewrite credit_all_once, Hu. }
  split.
  { exists (set_result r m). now rewrite lookup_insert_eq. }
  intros Hpool Hn. split; [| split].
  - subst payout cut. rewrite Hpool.
    destruct Hn as [-> | ->]; reflexivity.
  - unfold settled_total, payoutPerWinner, houseCut. rewrite Hpool.
    destruct Hn as [-> | ->]; reflexivity.
  - unfold settled_total_exact, payoutPerWinner, houseCut. rewrite Hpool.
    destruct Hn as [-> | ->]; eexists; split;
      try (vm_compute; reflexivity); reflexivity.
Qed.

Lemma house_cut_and_payouts_witness :
  exists db',
    settleMatch (Example.football_answer 1 1) "fb_3" Example.ten_db
    = (Returned, db')
    /\ users db' !! "dan" = users Example.ten_db !! "dan"
    /\ settled_total Example.ten_pool 3 = 10%float.
Proof.
  destruct (house_cut_and_payouts (Example.football_answer 1 1) "fb_3"
              Example.ten_db Example.ten_pool "draw" eq_refl eq_refl eq_refl)
    as (db' & Hs & _ & Hk & _ & _ & Hten).
  - repeat constructor; vm_compute; eauto.
  - apply no_nan_b_sound. vm_compute. reflexivity.
  - vm_compute. reflexivity.
  - exists db'. split; [exact Hs |]. split.
    + apply Hk. vm_compute. intros H.
      repeat (apply elem_of_cons in H as [H | H]; [discriminate H |]).
      now apply elem_of_nil in H.
    + apply Hten; [reflexivity | now right].
Defined.

(** * Entry admission *)

Lemma sum_fees_snoc (es : list Entry) (e : Entry) :
  sum_fees (es ++ [e]) = PrimFloat.add (sum_fees es) (entryFee e).
Proof. unfold sum_fees. now rewrite fold_left_app. Qed.

(** A stored premium caller joining a stored pending match: the balance
    decides, then the two saves. *)
Lemma join_challenge_stored (user_id match_id pred : string)
    (fee : option float) (db : DB) (u : User) (m : Match) :
  users db !! user_id = Some u -> isPremium u = true ->
  matches db !! match_id = Some m -> pending m = true ->
  join_challenge user_id match_id pred fee db
  = if PrimFloat.ltb (piBalance u) (default 0.5%float fee)
    then (JsonError 400 "Insufficient balance", db)
    else if PrimFloat.is_nan
              (PrimFloat.sub (piBalance u) (default 0.5%float fee))
    then (ServerError, db)
    else if PrimFloat.is_nan (PrimFloat.add (pool m) (default 0.5%float fee))
    then (ServerError, save_user user_id (debit (default 0.5%float fee) u) db)
    else (JoinOk (PrimFloat.add (pool m) (default 0.5%float fee)),
          save_match match_id
            (push_entry (mkEntry user_id pred (default 0.5%float fee)) m)
            (save_user user_id (debit (default 0.5%float fee) u) db)).
Proof.
  intros Hu Hprem Hm Hp. unfold join_challenge.
  now rewrite Hu, Hprem, Hm, Hp.
Qed.

Lemma join_challenge_case (user_id match_id pred : string) (fee : option float)
    (db : DB) :
  join_case user_id match_id pred (default 0.5%float fee) db
            (join_challenge user_id match_id pred fee db).
Proof.
  destruct (users db !! user_id) as [u |] eqn:Hu.
  2: { unfold join_challenge. rewrite Hu.
       apply join_no_premium. unfold eligible. now rewrite Hu. }
  destruct (isPremium u) eqn:Hprem.
  2: { unfold join_challenge. rewrite Hu, Hprem.
       apply join_no_premium. unfold eligible. now rewrite Hu, Hprem. }
  assert (He : eligible user_id db = true)
    by (unfold eligible; now rewrite Hu).
  destruct (matches db !! match_id) as [m |] eqn:Hm.
  2: { unfold join_challenge. rewrite Hu, Hprem, Hm.
       apply join_invalid_match; [done |]. intros m ?; congruence. }
  destruct (pending m) eqn:Hp.
  2: { unfold join_challenge. rewrite Hu, Hprem, Hm, Hp.
       apply join_invalid_match; [done |]. intros m' ?; congruence. }
  rewrite (join_challenge_stored _ _ _ _ _ u m) by done.
  destruct (PrimFloat.ltb (piBalance u) (default 0.5%float fee)) eqn:Hlt;
    [now apply (join_insufficient _ _ _ _ _ u m) |].
  destruct (PrimFloat.is_nan (PrimFloat.sub _ _)) eqn:Hn1;
    [now apply (join_debit_refused _ _ _ _ _ u m) |].
  destruct (PrimFloat.is_nan (PrimFloat.add _ _)) eqn:Hn2;
    [now apply (join_total_refused _ _ _ _ _ u m) |].
  now apply (join_accepted _ _ _ _ _ u m).
Qed.

Lemma join_balances_ok (r : JoinRequest) (db : DB) :
  balances_ok db -> balances_ok (snd (join r db)).
Proof.
  intros Hb. unfold join.
  destruct (join_challenge_case (req_userId r) (req_matchId r)
              (req_prediction r) (req_entryFee r) db)
    as [| | | | u m Hu Hprem Hm Hp Hlt Hn1 Hn2 | u m Hu Hprem Hm Hp Hlt Hn1 Hn2];
    cbn [snd]; try done.
  all: intros k v; cbn; rewrite lookup_insert; case_decide as Hk;
    [intros [= <-]; cbn; now apply Binary64.sub_not_negative | apply Hb].
Qed.

Lemma join_pools_ok (r : JoinRequest) (db : DB) :
  pools_ok db -> pools_ok (snd (join r db)).
Proof.
  intros Hb. unfold join.
  destruct (join_challenge_case (req_userId r) (req_matchId r)
              (req_prediction r) (req_entryFee r) db)
    as [| | | | u m Hu Hprem Hm Hp Hlt Hn1 Hn2 | u m Hu Hprem Hm Hp Hlt Hn1 Hn2];
    cbn [snd]; try done.
  intros k v. cbn [save_match save_user matches]. rewrite lookup_insert.
  case_decide as Hk.
  - intros [= <-]. unfold push_entry. cbn [pool entries].
    rewrite sum_fees_snoc. cbn [entryFee]. now rewrite (Hb _ _ Hm).
  - apply Hb.
Qed.

Lemma join_no_nan (r : JoinRequest) (db : DB) :
  no_nan db -> no_nan (snd (join r db)).
Proof.
  intros [Hb Hq]. unfold join.
  destruct (join_challenge_case (req_userId r) (req_matchId r)
              (req_prediction r) (req_entryFee r) db)
    as [| | | | u m Hu Hprem Hm Hp Hlt Hn1 Hn2 | u m Hu Hprem Hm Hp Hlt Hn1 Hn2];
    cbn [snd]; try done.
  - split; [| exact Hq].
    intros k v. cbn. rewrite lookup_insert. case_decide as Hk; [| apply Hb].
    now intros [= <-].
  - split.
    + intros k v. cbn. rewrite lookup_insert. case_decide as Hk; [| apply Hb].
      now intros [= <-].
    + intros k v. cbn [save_match save_user matches]. rewrite lookup_insert.
      case_decide as Hk; [| apply Hq]. now intros [= <-].
Qed.

Lemma run_joins_no_nan (rs : list JoinRequest) (db : DB) :
  no_nan db -> no_nan (run_joins rs db).
Proof.
  revert db. induction rs as [| r rs IH]; intros db H; [done |].
  apply IH. now apply join_no_nan.
Qed.

(** C4, as the specification words it, fails.  After the three accepted
    joins of the example, with the fees 0.1, 0.2 and 0.3, the stored pool
    total is 0.6000000000000001: it is not the exact sum of the three
    recorded fees. *)
Lemma join_total_not_exact :
  exists m total exact,
    matches (run_joins Example.mixed Example.open_db) !! "fb_5" = Some m
    /\ map entryFee (entries m) = [0.1%float; 0.2%float; 0.3%float]
    /\ pool m = 0.60000000000000009%float
    /\ Number.value (pool m) = Some total
    /\ exact_sum_fees (entries m) = Some exact
    /\ (exact < total)%Q.
Proof.
  do 3 eexists. split; [vm_compute; reflexivity |].
  repeat split; vm_compute; reflexivity.
Qed.

(** C4, amended.  Along every sequence of join calls whose fees are JSON
    numbers or absent, served one after the other from a database in which
    no balance is negative and every pool total is the Number sum of its
    recorded fees, no balance ever becomes negative and every pool total
    stays the Number sum of the fees in its entry list: the fees added in
    entry order, each addition rounded to binary64, which need not be their
    exact sum.  When the database holds no NaN at the start it holds none
    at the end, and every balance is then at least 0. *)
Theorem joins_keep_invariants (rs : list JoinRequest) (db : DB) :
  balances_ok db -> pools_ok db ->
  balances_ok (run_joins rs db)
  /\ pools_ok (run_joins rs db)
  /\ (forall k m, matches (run_joins rs db) !! k = Some m ->
        pool m = fold_left (fun acc e => PrimFloat.add acc (entryFee e))
                           (entries m) 0%float)
  /\ (no_nan db ->
      no_nan (run_joins rs db)
      /\ forall k u, users (run_joins rs db) !! k = Some u ->
                     PrimFloat.leb 0 (piBalance u) = true).
Proof.
  intros Hb Hp.
  assert (H : balances_ok (run_joins rs db) /\ pools_ok (run_joins rs db)).
  { revert db Hb Hp. induction rs as [| r rs IH]; intros db Hb Hp; [done |].
    apply IH; [now apply join_balances_ok | now apply join_pools_ok]. }
  destruct H as [Hb' Hp']. split; [exact Hb' |]. split; [exact Hp' |].
  split; [exact Hp' |].
  intros Hn. apply (run_joins_no_nan rs) in Hn. split; [exact Hn |].
  intros k u Hk. apply Binary64.not_negative_leb.
  - exact (Hb' k u Hk).
  - exact (proj1 Hn k u Hk).
Qed.

Lemma joins_keep_invariants_witness :
  (piBalance <$> users (run_joins Example.mixed Example.open_db) !! "ann"
   = Some 0.39999999999999997%float)
  /\ (pool <$> matches (run_joins Example.mixed Example.open_db) !! "fb_5"
      = Some 0.60000000000000009%float)
  /\ balances_ok (run_joins Example.mixed Example.open_db)
  /\ pools_ok (run_joins Example.mixed Example.open_db).
Proof.
  split; [vm_compute; reflexivity |]. split; [vm_compute; reflexivity |].
  destruct (joins_keep_invariants Example.mixed Example.open_db)
    as (Hb & Hp & _).
  - intros k u Hk. apply elem_of_list_to_map_2, list_elem_of_In in Hk.
    cbn in Hk. destruct Hk as [[= <- <-] | [[= <- <-] | []]]; reflexivity.
  - intros k m Hk. cbn in Hk.
    apply lookup_singleton_Some in Hk as [_ <-]. reflexivity.
  - exact (conj Hb Hp).
Defined.

(** C5, as the specification words it, fails.  The handler tests the
    premium gate before it looks at the pool: a caller without premium
    joining a pool that does not exist gets 'Premium required', where the
    specified order reports the missing pool.  And the prediction is never
    validated: a label that is no outcome of the pool is accepted. *)
Lemma join_order_differs :
  spec_join_failure "eve" "fb_0" "home" 0.5 Example.open_db = Some PoolNotFound
  /\ join_challenge "eve" "fb_0" "home" None Example.open_db
     = (JsonError 403 "Premium required", Example.open_db)
  /\ (PoolNotFound ∉ join_errors (JsonError 403 "Premium required"))
  /\ spec_join_failure "ann" "fb_5" "banana" 0.5 Example.open_db
     = Some PredictionInvalid
  /\ fst (join_challenge "ann" "fb_5" "banana" None Example.open_db)
     = JoinOk 0.5.
Proof.
  repeat split; try (vm_compute; reflexivity).
  cbn. intros H. apply list_elem_of_In in H. cbn in H.
  destruct H as [H | []]. discriminate H.
Qed.

(** C5, amended.  The handler checks, in this order: the caller is stored
    and premium (else 403 'Premium required', whatever the pool); the match
    is stored and pending (else 400 'Invalid match', one error for both);
    the balance is not below the fee (else 400 'Insufficient balance').
    Otherwise the join goes through the two saves, whatever the prediction
    and whatever entries the caller already holds: a new balance that is
    NaN is refused by the first save and the call answers 500 with nothing
    written; a new pool total that is NaN is refused by the second save and
    the call answers 500 with the debit already stored; otherwise the join
    is accepted.  With a finite fee and no NaN in the database no 500
    arises.  Every 4xx response leaves the database as it was. *)
Theorem join_checks_in_order (user_id match_id pred : string)
    (fee : option float) (db : DB) :
  (eligible user_id db = false ->
   join_challenge user_id match_id pred fee db
   = (JsonError 403 "Premium required", db))
  /\ (eligible user_id db = true ->
      (forall m, matches db !! match_id = Some m -> pending m = false) ->
      join_challenge user_id match_id pred fee db
      = (JsonError 400 "Invalid match", db))
  /\ (forall u m,
        users db !! user_id = Some u -> isPremium u = true ->
        matches db !! match_id = Some m -> pending m = true ->
        join_challenge user_id match_id pred fee db
        = if PrimFloat.ltb (piBalance u) (default 0.5%float fee)
          then (JsonError 400 "Insufficient balance", db)
          else if PrimFloat.is_nan
                    (PrimFloat.sub (piBalance u) (default 0.5%float fee))
          then (ServerError, db)
          else if PrimFloat.is_nan
                    (PrimFloat.add (pool m) (default 0.5%float fee))
          then (ServerError,
                mkDB (<[user_id :=
                          mkUser (uid u) (username u)
                            (PrimFloat.sub (piBalance u)
                                           (default 0.5%float fee))
                            (isPremium u) (premiumUntil u) (wins u)
                            (referrals u) (discountCodes u)]> (users db))
                     (matches db))
          else (JoinOk (PrimFloat.add (pool m) (default 0.5%float fee)),
                save_match match_id
                  (push_entry (mkEntry user_id pred (default 0.5%float fee)) m)
                  (save_user user_id (debit (default 0.5%float fee) u) db)))
  /\ (forall status error,
        fst (join_challenge user_id match_id pred fee db)
        = JsonError status error ->
        snd (join_challenge user_id match_id pred fee db) = db)
  /\ (no_nan db -> PrimFloat.is_finite (default 0.5%float fee) = true ->
      fst (join_challenge user_id match_id pred fee db) <> ServerError).
Proof.
  split; [| split; [| split; [| split]]].
  - intros He.
    destruct (join_challenge_case user_id match_id pred fee db)
      as [| He' | u m Hu Hprem | u m Hu Hprem | u m Hu Hprem | u m Hu Hprem];
      try done; try congruence.
    all: unfold eligible in He; rewrite Hu in He; congruence.
  - intros He Hno.
    destruct (join_challenge_case user_id match_id pred fee db)
      as [He' | | u m Hu Hprem Hm Hp | u m Hu Hprem Hm Hp
          | u m Hu Hprem Hm Hp | u m Hu Hprem Hm Hp]; try done.
    + congruence.
    + apply Hno in Hm. congruence.
    + apply Hno in Hm. congruence.
    + apply Hno in Hm. congruence.
    + apply Hno in Hm. congruence.
  - intros u m Hu Hprem Hm Hp.
    now rewrite (join_challenge_stored _ _ _ _ _ u m).
  - intros status error.
    now destruct (join_challenge_case user_id match_id pred fee db).
  - intros [Hb Hq] Hfin.
    destruct (join_challenge_case user_id match_id pred fee db)
      as [| | | u m Hu Hprem Hm Hp Hlt Hn1
          | u m Hu Hprem Hm Hp Hlt Hn1 Hn2 |]; try done.
    + rewrite Binary64.sub_not_nan in Hn1; [done | eauto | done].
    + rewrite Binary64.add_not_nan in Hn2; [done | eauto | done].
Qed.

Lemma join_checks_in_order_witness :
  join_challenge "ann" "fb_5" "home" None Example.open_db
  = (JoinOk 0.5%float,
     save_match "fb_5"
       (push_entry (mkEntry "ann" "home" 0.5%float)
                   (Example.fresh "fb_5" "football"))
       (save_user "ann" (debit 0.5%float (Example.premium "ann" 1))
                  Example.open_db))
  /\ fst (join_challenge "ann" "fb_5" "home" None Example.open_db)
     <> ServerError.
Proof.
  destruct (join_checks_in_order "ann" "fb_5" "home" None Example.open_db)
    as (_ & _ & Hst & _ & Hno).
  split.
  - exact (Hst (Example.premium "ann" 1) (Example.fresh "fb_5" "football")
               eq_refl eq_refl eq_refl eq_refl).
  - apply Hno; [apply no_nan_b_sound |]; vm_compute; reflexivity.
Defined.

(** C7, as the specification words it, fails: a user who joins the same
    pool twice is accepted twice, is debited twice, and the pool then holds
    two entries of that user. *)
Lemma second_join_accepted :
  fst (join (mkJoin "ann" "fb_5" "home" None) Example.open_db) = JoinOk 0.5
  /\ fst (join (mkJoin "ann" "fb_5" "draw" None)
               (snd (join (mkJoin "ann" "fb_5" "home" None) Example.open_db)))
     = JoinOk 1
  /\ entries_of "ann"
     <$> matches (run_joins Example.twice Example.open_db) !! "fb_5"
     = Some [mkEntry "ann" "home" 0.5; mkEntry "ann" "draw" 0.5]
  /\ piBalance <$> users (run_joins Example.twice Example.open_db) !! "ann"
     = Some 0%float.
Proof. repeat split; vm_compute; reflexivity. Qed.

Lemma entries_of_snoc_same (user_id pred : string) (fee : float) (m : Match) :
  entries_of user_id (push_entry (mkEntry user_id pred fee) m)
  = (entries_of user_id m ++ [mkEntry user_id pred fee])%list.
Proof.
  unfold entries_of, push_entry. cbn [entries].
  rewrite List.filter_app. cbn. now rewrite String.eqb_refl.
Qed.

(** C7, amended.  The code keeps no limit of one entry per user: a join by
    a premium user who already holds entries in a pending pool is accepted
    whenever the balance is not below the fee and neither the new balance
    nor the new pool total is NaN (which Mongoose would refuse to save; they
    are not NaN for a finite fee in a database without NaN); it debits the
    fee once more and appends one more entry of that user to the entry
    list. *)
Theorem repeated_join_accepted (user_id match_id pred : string)
    (fee : option float) (db : DB) (u : User) (m : Match) :
  users db !! user_id = Some u -> isPremium u = true ->
  matches db !! match_id = Some m -> pending m = true ->
  entries_of user_id m <> [] ->
  PrimFloat.ltb (piBalance u) (default 0.5%float fee) = false ->
  PrimFloat.is_nan (PrimFloat.sub (piBalance u) (default 0.5%float fee))
  = false ->
  PrimFloat.is_nan (PrimFloat.add (pool m) (default 0.5%float fee)) = false ->
  exists u' m',
    join_challenge user_id match_id pred fee db
    = (JoinOk (pool m'),
       mkDB (<[user_id := u']> (users db)) (<[match_id := m']> (matches db)))
    /\ piBalance u' = PrimFloat.sub (piBalance u) (default 0.5%float fee)
    /\ pool m' = PrimFloat.add (pool m) (default 0.5%float fee)
    /\ entries m'
       = (entries m ++ [mkEntry user_id pred (default 0.5%float fee)])%list
    /\ length (entries_of user_id m') = S (length (entries_of user_id m))
    /\ (2 <= length (entries_of user_id m'))%nat.
Proof.
  intros Hu Hprem Hm Hp Hheld Hlt Hn1 Hn2.
  exists (debit (default 0.5%float fee) u),
         (push_entry (mkEntry user_id pred (default 0.5%float fee)) m).
  split.
  { rewrite (join_challenge_stored _ _ _ _ _ u m) by done.
    now rewrite Hlt, Hn1, Hn2. }
  repeat split.
  - rewrite entries_of_snoc_same, length_app. cbn. lia.
  - rewrite entries_of_snoc_same, length_app. cbn.
    destruct (entries_of user_id m); [done | cbn; lia].
Qed.

Lemma repeated_join_accepted_witness :
  entries_of "ann" Example.once_pool = [mkEntry "ann" "home" 0.5]
  /\ exists u' m',
       join_challenge "ann" "fb_5" "draw" None Example.once_db
       = (JoinOk (pool m'),
          mkDB (<["ann" := u']> (users Example.once_db))
               (<["fb_5" := m']> (matches Example.once_db)))
       /\ piBalance u' = 0%float
       /\ entries m'
          = [mkEntry "ann" "home" 0.5; mkEntry "ann" "draw" 0.5].
Proof.
  split; [reflexivity |].
  destruct (repeated_join_accepted "ann" "fb_5" "draw" None Example.once_db
              (Example.premium "ann" 0.5) Example.once_pool)
    as (u' & m' & Hj & Hb & _ & He & _); try (vm_compute; reflexivity).
  - discriminate.
  - exists u', m'. split; [exact Hj |]. split.
    + rewrite Hb. reflexivity.
    + rewrite He. reflexivity.
Defined.

(** * Amounts and reward codes *)

(** C8, as the specification words it, fails: the handler has no check on
    the sign of the fee.  A join with the fee -1 is accepted; it raises the
    caller's balance from 1 to 2 and brings the pool total to -1.  A join
    with the fee 0 is accepted as well. *)
Lemma negative_fee_accepted :
  piBalance <$> users Example.open_db !! "ann" = Some 1%float
  /\ fst (join (mkJoin "ann" "fb_5" "home" (Some (-1)%float)) Example.open_db)
     = JoinOk (-1)%float
  /\ piBalance
     <$> users (snd (join (mkJoin "ann" "fb_5" "home" (Some (-1)%float))
                          Example.open_db)) !! "ann"
     = Some 2%float
  /\ pool
     <$> matches (snd (join (mkJoin "ann" "fb_5" "home" (Some (-1)%float))
                            Example.open_db)) !! "fb_5"
     = Some (-1)%float
  /\ fst (join (mkJoin "ann" "fb_5" "home" (Some 0%float)) Example.open_db)
     = JoinOk 0%float.
Proof. repeat split; vm_compute; reflexivity. Qed.

(** C8, amended.  The code has no InvalidAmount error and no check that an
    amount is positive: a join whose fee is zero or negative is accepted for
    every premium caller whose balance is not negative, on every pending
    match, as long as neither the new balance nor the new pool total is NaN
    (which Mongoose would refuse to save; they are not NaN for a finite fee
    in a database without NaN); the fee is subtracted from the balance (so
    a negative fee raises it) and added to the pool total, and the entry is
    recorded. *)
Theorem nonpositive_fee_accepted (user_id match_id pred : string) (fee : float)
    (db : DB) (u : User) (m : Match) :
  users db !! user_id = Some u -> isPremium u = true ->
  matches db !! match_id = Some m -> pending m = true ->
  PrimFloat.leb fee 0%float = true ->
  Number.negative (piBalance u) = false ->
  PrimFloat.is_nan (PrimFloat.sub (piBalance u) fee) = false ->
  PrimFloat.is_nan (PrimFloat.add (pool m) fee) = false ->
  exists u' m',
    join_challenge user_id match_id pred (Some fee) db
    = (JoinOk (PrimFloat.add (pool m) fee),
       mkDB (<[user_id := u']> (users db)) (<[match_id := m']> (matches db)))
    /\ piBalance u' = PrimFloat.sub (piBalance u) fee
    /\ pool m' = PrimFloat.add (pool m) fee
    /\ entries m' = (entries m ++ [mkEntry user_id pred fee])%list.
Proof.
  intros Hu Hprem Hm Hp Hfee Hbal Hn1 Hn2.
  exists (debit fee u), (push_entry (mkEntry user_id pred fee) m).
  repeat split.
  rewrite (join_challenge_stored _ _ _ _ _ u m) by done.
  change (default 0.5%float (Some fee)) with fee.
  now rewrite (Binary64.ltb_across_zero _ _ Hfee Hbal), Hn1, Hn2.
Qed.

Lemma nonpositive_fee_accepted_witness :
  exists u' m',
    join_challenge "ann" "fb_5" "home" (Some (-1)%float) Example.open_db
    = (JoinOk (-1)%float,
       mkDB (<["ann" := u']> (users Example.open_db))
            (<["fb_5" := m']> (matches Example.open_db)))
    /\ piBalance u' = 2%float
    /\ pool m' = (-1)%float.
Proof.
  destruct (nonpositive_fee_accepted "ann" "fb_5" "home" (-1)%float
              Example.open_db (Example.premium "ann" 1)
              (Example.fresh "fb_5" "football"))
    as (u' & m' & Hj & Hb & Hq & _); try (vm_compute; reflexivity).
  exists u', m'. split; [exact Hj |]. split.
  - rewrite Hb. reflexivity.
  - rewrite Hq. reflexivity.
Defined.

(** Infinite amounts.  A fee of -Infinity (the JSON number -1e999) is
    accepted: it leaves the balance Infinity and the pool total -Infinity.
    Settling that pool computes a NaN payout; the result is saved, then the
    save of the winner's NaN balance is refused and the call throws with
    nobody credited.  A further join with the fee Infinity would leave the
    balance NaN: its save is refused and the answer is 500. *)
Lemma infinite_fee_accepted :
  fst (join_challenge "ann" "fb_5" "home" (Some neg_infinity) Example.open_db)
  = JoinOk neg_infinity
  /\ piBalance
     <$> users (snd (join_challenge "ann" "fb_5" "home" (Some neg_infinity)
                                    Example.open_db)) !! "ann"
     = Some infinity
  /\ fst (settleMatch (Example.football_answer 1 0) "fb_5"
            (snd (join_challenge "ann" "fb_5" "home" (Some neg_infinity)
                                 Example.open_db)))
     = Threw
  /\ result
     <$> matches (snd (settleMatch (Example.football_answer 1 0) "fb_5"
                         (snd (join_challenge "ann" "fb_5" "home"
                                 (Some neg_infinity) Example.open_db))))
         !! "fb_5"
     = Some "home"
  /\ users (snd (settleMatch (Example.football_answer 1 0) "fb_5"
                   (snd (join_challenge "ann" "fb_5" "home"
                           (Some neg_infinity) Example.open_db))))
     = users (snd (join_challenge "ann" "fb_5" "home" (Some neg_infinity)
                                  Example.open_db))
  /\ join_challenge "ann" "fb_5" "draw" (Some infinity)
       (snd (join_challenge "ann" "fb_5" "home" (Some neg_infinity)
                            Example.open_db))
     = (ServerError,
        snd (join_challenge "ann" "fb_5" "home" (Some neg_infinity)
                            Example.open_db)).
Proof. repeat split; vm_compute; reflexivity. Qed.

(** C9 at its failing input.  A user who holds no reward code subscribes
    with the code WIN10_1: the discount is applied (0.45 is debited instead
    of 0.5), and the same code is honoured again on the next call. *)
Theorem discount_without_owning_code :
  discountCodes <$> users Example.no_code_db !! "ann" = Some []
  /\ subscription_price (Some "WIN10_1") = 0.45%float
  /\ fst (subscribe "ann" (Some "WIN10_1") 0 Example.no_code_db)
     = SubscribeOk thirty_days
  /\ piBalance
     <$> users (snd (subscribe "ann" (Some "WIN10_1") 0 Example.no_code_db))
         !! "ann"
     = Some (PrimFloat.sub 1 0.45)%float
  /\ piBalance
     <$> users (snd (subscribe "ann" (Some "WIN10_1") 0
                      (snd (subscribe "ann" (Some "WIN10_1") 0
                                      Example.no_code_db)))) !! "ann"
     = Some (PrimFloat.sub (PrimFloat.sub 1 0.45) 0.45)%float.
Proof. repeat split; vm_compute; reflexivity. Qed.

(** * More on settlement *)


Lemma credit_winners_dom (payout : float) (ws : list Entry) (db : DB) :
  dom (users (snd (credit_winners payout ws db))) = dom (users db).
Proof.
  revert db. induction ws as [| w ws IH]; intros db; [done |].
  rewrite credit_winners_cons.
  destruct (users db !! userId w) as [u |] eqn:Hu; [| done].
  destruct (PrimFloat.is_nan _); [done |].
  rewrite IH. cbn. apply dom_insert_lookup_L. eauto.
Qed.

(** The loop stops at the first winner that is not stored, with the winners
    before it credited (no stored balance being NaN, and the payout
    finite). *)
Lemma credit_winners_stops (payout : float) (ws1 ws2 : list Entry) (e : Entry)
    (db : DB) :
  Forall (fun w => is_Some (users db !! userId w)) ws1 ->
  users db !! userId e = None ->
  (forall k u, users db !! k = Some u -> PrimFloat.is_nan (piBalance u) = false) ->
  PrimFloat.is_finite payout = true ->
  credit_winners payout (ws1 ++ e :: ws2) db
  = (Threw, mkDB (credit_all payout ws1 (users db)) (matches db)).
Proof.
  intros Hall He Hnan Hfin. revert db Hall He Hnan.
  induction ws1 as [| w ws1 IH]; intros db Hall He Hnan.
  - cbn. rewrite He. now rewrite DB_eta.
  - apply Forall_cons in Hall as [[u Hu] Hall].
    cbn [app]. rewrite credit_winners_cons, Hu.
    assert (Hok : PrimFloat.is_nan (piBalance (credit_winner payout u)) = false)
      by (cbn; apply Binary64.add_not_nan; eauto).
    assert (Hne : userId w <> userId e) by congruence.
    rewrite Hok, IH; cbn [save_user users matches].
    + rewrite credit_all_cons. do 3 f_equal. symmetry.
      now apply alter_alt_Some.
    + eapply Forall_impl; [exact Hall |]. intros w' Hw'. cbn in *.
      now apply lookup_insert_is_Some'; right.
    + now rewrite lookup_insert_ne.
    + intros k v. rewrite lookup_insert. case_decide; [| apply Hnan].
      now intros [= <-].
Qed.

(** X1. [settleMatch] throws and leaves the database exactly as it was in
    two cases and no other: the match is not stored, or it is pending and
    the result lookup fails (the request fails, or the fixture list is
    empty).  The pool then is still pending, so a later call can settle
    it. *)
Theorem settle_fails_cleanly (w : World) (id : string) (db : DB) :
  settleMatch w id db = (Threw, db)
  <-> matches db !! id = None
      \/ exists m, matches db !! id = Some m /\ pending m = true
                   /\ fetch_result w m = None.
Proof.
  unfold settleMatch. split.
  - destruct (matches db !! id) as [m |] eqn:Hm; [| auto].
    destruct (pending m) eqn:Hp; cbn [negb]; [| discriminate].
    destruct (fetch_result w m) as [r |] eqn:Hr; [| eauto 6].
    intros H. exfalso.
    assert (Hk : matches (snd (Threw, db)) !! id = Some m) by exact Hm.
    rewrite <- H in Hk.
    destruct (winners_of r m) as [| e es]; cbn [snd] in Hk.
    + cbn in Hk. rewrite lookup_insert_eq in Hk.
      injection Hk as Hk. apply fetch_result_not_pending in Hr.
      rewrite Hk in Hr. congruence.
    + rewrite credit_winners_matches in Hk. cbn in Hk.
      rewrite lookup_insert_eq in Hk.
      injection Hk as Hk. apply fetch_result_not_pending in Hr.
      rewrite Hk in Hr. congruence.
  - intros [Hm | (m & Hm & Hp & Hr)]; rewrite Hm; [done |].
    now rewrite Hp, Hr.
Qed.

(** X2. Settlement is not atomic.  In a database that holds no NaN and
    with a finite payout, when one of the winning entries belongs to a user
    that is not stored, the call throws after it has saved the result and
    credited the winners listed before that entry; the winners listed after
    it are not credited, and since the match is no longer pending every
    later call returns without crediting them either. *)
Theorem settle_missing_winner (w : World) (id : string) (db : DB) (m : Match)
    (r : string) (ws1 ws2 : list Entry) (e : Entry) :
  matches db !! id = Some m -> pending m = true -> fetch_result w m = Some r ->
  winners_of r m = (ws1 ++ e :: ws2)%list ->
  Forall (fun x => is_Some (users db !! userId x)) ws1 ->
  users db !! userId e = None ->
  no_nan db ->
  PrimFloat.is_finite (payoutPerWinner m (length (winners_of r m))) = true ->
  exists db',
    settleMatch w id db = (Threw, db')
    /\ users db'
       = credit_all (payoutPerWinner m (length (winners_of r m))) ws1 (users db)
    /\ matches db' = <[id := set_result r m]> (matches db)
    /\ (forall k, k ∉ map userId ws1 -> users db' !! k = users db !! k)
    /\ (forall w', settleMatch w' id db' = (Returned, db')).
Proof.
  intros Hm Hp Hr Hws Hall He [Hnan _] Hfin.
  exists (mkDB (credit_all (payoutPerWinner m (length (winners_of r m))) ws1
                           (users db))
               (<[id := set_result r m]> (matches db))).
  split.
  { rewrite (settleMatch_pending w id db m r) by done.
    revert Hfin.
    set (p := payoutPerWinner m (length (winners_of r m))). intros Hfin.
    rewrite Hws.
    destruct (ws1 ++ e :: ws2)%list as [| x xs] eqn:E.
    - destruct ws1; discriminate E.
    - rewrite <- E. now rewrite credit_winners_stops. }
  cbn [users matches save_match]. split; [reflexivity |].
  split; [reflexivity |]. split.
  - intros k Hk. now apply credit_all_other.
  - intros w'. apply (settleMatch_settled w' id _ (set_result r m)).
    + cbn. apply lookup_insert_eq.
    + eauto using fetch_result_not_pending.
Qed.

Lemma settle_missing_winner_witness :
  exists db',
    settleMatch (Example.nba_answer 101 99) "nba_9" Example.gap_db = (Threw, db')
    /\ piBalance <$> users db' !! "ann" = Some 0.45%float
    /\ piBalance <$> users db' !! "bob" = Some 0%float
    /\ settleMatch (Example.nba_answer 101 99) "nba_9" db' = (Returned, db').
Proof.
  destruct (settle_missing_winner (Example.nba_answer 101 99) "nba_9"
              Example.gap_db Example.gap_pool "home"
              [mkEntry "ann" "home" 0.5] [mkEntry "bob" "home" 0.5]
              (mkEntry "zed" "home" 0.5) eq_refl eq_refl eq_refl eq_refl)
    as (db' & Hs & Hu & _ & _ & Hagain).
  - repeat constructor. vm_compute. eauto.
  - reflexivity.
  - apply no_nan_b_sound. vm_compute. reflexivity.
  - vm_compute. reflexivity.
  - exists db'. split; [exact Hs |]. rewrite Hu.
    split; [vm_compute; reflexivity |]. split; [vm_compute; reflexivity |].
    apply Hagain.
Defined.


(** [Number.succ] is the binary64 addition of 1, checked on both sides of
    2^53 and of 2^54. *)
Lemma succ_is_number_add :
  Forall (fun n => Number.of_N (Number.succ n)
                   = PrimFloat.add (Number.of_N n) 1%float)
         [0; 1; 41; 2 ^ 53 - 2; 2 ^ 53 - 1; 2 ^ 53; 2 ^ 53 + 2; 2 ^ 53 + 4;
          2 ^ 54 - 2; 2 ^ 54; 2 ^ 54 + 4; 2 ^ 60]%N.
Proof. repeat constructor; vm_compute; reflexivity. Qed.

Lemma succ_below (n : N) : (n < 2 ^ 53)%N -> Number.succ n = (n + 1)%N.
Proof.
  intros H. unfold Number.succ.
  now destruct (N.ltb_spec n (2 ^ 53)); [| lia].
Qed.



Lemma succ_ge (n : N) : (n <= Number.succ n)%N.
Proof.
  unfold Number.succ.
  destruct (n <? 2 ^ 53)%N; [lia |].
  destruct ((n <? 2 ^ 54)%N && N.odd (n / 2)); lia.
Qed.

Lemma iter_credit_winner_wins (payout : float) (n : nat) (u : User) :
  (wins u <= wins (Nat.iter n (credit_winner payout) u))%N
  /\ ((wins u < 2 ^ 53)%N ->
      (wins u < wins (Nat.iter (S n) (credit_winner payout) u))%N).
Proof.
  assert (H : (wins u <= wins (Nat.iter n (credit_winner payout) u))%N).
  { induction n as [| n IH]; [done |].
    rewrite Nat.iter_succ. cbn [credit_winner wins].
    etrans; [exact IH | apply succ_ge]. }
  split; [exact H |]. intros Hlt.
  rewrite Nat.iter_succ. cbn [credit_winner wins].
  destruct (N.lt_ge_cases (wins (Nat.iter n (credit_winner payout) u)) (2 ^ 53))
    as [Hs | Hs].
  - rewrite succ_below by done. lia.
  - pose proof (succ_ge (wins (Nat.iter n (credit_winner payout) u))). lia.
Qed.

(** The last credit issues the code of the new value of the counter. *)
Lemma iter_credit_winner_last (payout : float) (n : nat) (u : User) :
  issued_code (wins (Nat.iter (S n) (credit_winner payout) u))
  ∈ discountCodes (Nat.iter (S n) (credit_winner payout) u).
Proof.
  rewrite Nat.iter_succ. cbn [credit_winner wins discountCodes].
  apply elem_of_app. right. apply elem_of_cons. now left.
Qed.

Lemma credit_all_lookup (payout : float) (ws : list Entry)
    (us : gmap string User) (k : string) :
  credit_all payout ws us !! k
  = Nat.iter (entry_count k ws) (credit_winner payout) <$> us !! k.
Proof.
  revert us. induction ws as [| w ws IH]; intros us.
  - cbn. now destruct (us !! k).
  - rewrite credit_all_cons, IH. unfold entry_count. cbn [List.filter].
    destruct (String.eqb_spec (userId w) k) as [-> | Hne].
    + rewrite lookup_alter_eq. cbn [length].
      destruct (us !! k) as [u |]; cbn; [| done].
      now rewrite <- Nat.iter_succ_r.
    + now rewrite lookup_alter_ne.
Qed.



(** X5. A settled pool takes no more stakes: after a call of [settleMatch]
    on a match has returned, every join of that match is refused with an
    error ('Premium required' for a caller that fails the premium gate,
    'Invalid match' otherwise) and changes nothing. *)
Theorem settled_pool_rejects_joins (w : World) (id : string) (db db' : DB)
    (user_id pred : string) (fee : option float) :
  settleMatch w id db = (Returned, db') ->
  join_challenge user_id id pred fee db'
  = (if eligible user_id db' then JsonError 400 "Invalid match"
     else JsonError 403 "Premium required", db').
Proof.
  intros H. apply settleMatch_returned in H as (m & Hm & Hp).
  unfold join_challenge, eligible.
  destruct (users db' !! user_id) as [u |]; [| done].
  destruct (isPremium u); cbn [negb]; [| done].
  now rewrite Hm, Hp.
Qed.

Lemma settled_pool_rejects_joins_witness :
  join_challenge "cy" "nba_1" "away" None Example.three_settled
  = (JsonError 400 "Invalid match", Example.three_settled).
Proof.
  assert (H : settleMatch (Example.nba_answer 101 99) "nba_1" Example.three_db
              = (Returned, Example.three_settled)) by (vm_compute; reflexivity).
  exact (settled_pool_rejects_joins _ _ _ _ "cy" "away" None H).
Defined.

(** * Subscription *)

Lemma subscription_price_cases (code : option string) :
  subscription_price code = 0.45%float \/ subscription_price code = 0.5%float.
Proof.
  unfold subscription_price. destruct code as [c |]; [| auto].
  destruct (truthy (Some c) && String.prefix "WIN10_" c); auto.
Qed.

Lemma issued_code_price (k : N) :
  truthy (Some (issued_code k)) = true
  /\ subscription_price (Some (issued_code k)) = 0.45%float.
Proof.
  unfold issued_code, subscription_price.
  destruct (pretty k); split; reflexivity.
Qed.

(** A subscription is refused in two cases and no other: the user is
    not stored (404), or the balance is below the price (400), the price
    being 0.45 or 0.5.  A refused subscription changes nothing. *)
Lemma subscribe_refused (user_id : string) (code : option string) (now : Z)
    (db : DB) :
  (users db !! user_id = None
   \/ (exists u, users db !! user_id = Some u
                 /\ PrimFloat.ltb (piBalance u) (subscription_price code) = true)
   <-> exists status error,
         fst (subscribe user_id code now db) = JsonError status error)
  /\ (forall status error,
        fst (subscribe user_id code now db) = JsonError status error ->
        snd (subscribe user_id code now db) = db
        /\ (status = 404%Z /\ users db !! user_id = None
            \/ status = 400%Z /\ is_Some (users db !! user_id))).
Proof.
  unfold subscribe.
  destruct (users db !! user_id) as [u |] eqn:Hu.
  - destruct (PrimFloat.ltb (piBalance u) (subscription_price code)) eqn:Hlt;
      cbn [fst snd].
    + split; [split; eauto 6 |]. intros ? ? [= <- <-]. eauto.
    + split; [| discriminate]. split.
      * intros [H | (u' & [= <-] & H)]; congruence.
      * intros (? & ? & H). discriminate H.
  - cbn [fst snd]. split; [split; eauto |]. intros ? ? [= <- <-]. eauto.
Qed.

(** The codes left after a subscription with [code]. *)
Lemma remaining_codes (code : option string) (codes : list string)
    (c : string) :
  c ∈ match code with
      | Some c' =>
          if truthy code then List.filter (string_neqb c') codes else codes
      | None => codes
      end
  <-> c ∈ codes /\ ~ (truthy code = true /\ code = Some c).
Proof.
  destruct code as [c' |]; [destruct (truthy (Some c')) eqn:Ht |].
  - rewrite !list_elem_of_In, List.filter_In. unfold string_neqb.
    destruct (String.eqb_spec c' c) as [-> | Hne]; cbn.
    + split; [intros [_ [=]] | intros [_ H]; exfalso; now apply H].
    + split; [intros [H _]; split; [done | intros [_ [= ?]]; done]
             | intros [H _]; done].
  - split; [intros H; split; [done | intros [? _]; congruence]
           | now intros [H _]].
  - split; [intros H; split; [done | intros [? _]; discriminate]
           | now intros [H _]].
Qed.

(** X6. A subscription that goes through debits the price without making
    the balance negative, sets the premium flag and the expiry thirty days
    (2592000000 ms) after the call, and removes every copy of the supplied
    code from the user's codes (whether or not it earned the discount)
    while keeping all the other codes; wins and referrals, the other users
    and all matches are untouched. *)
Theorem subscribe_effect (user_id : string) (code : option string) (now : Z)
    (db : DB) (u : User) :
  users db !! user_id = Some u ->
  PrimFloat.ltb (piBalance u) (subscription_price code) = false ->
  exists u',
    subscribe user_id code now db
    = (SubscribeOk (now + 2592000000),
       mkDB (<[user_id := u']> (users db)) (matches db))
    /\ piBalance u' = PrimFloat.sub (piBalance u) (subscription_price code)
    /\ Number.negative (piBalance u') = false
    /\ isPremium u' = true
    /\ premiumUntil u' = Some (now + 2592000000)%Z
    /\ wins u' = wins u /\ referrals u' = referrals u
    /\ (forall c, c ∈ discountCodes u'
                  <-> c ∈ discountCodes u
                      /\ ~ (truthy code = true /\ code = Some c)).
Proof.
  intros Hu Hlt. unfold subscribe. rewrite Hu, Hlt.
  eexists. split; [reflexivity |].
  cbn [piBalance isPremium premiumUntil wins referrals discountCodes].
  split; [reflexivity |]. split; [now apply Binary64.sub_not_negative |].
  do 4 (split; [reflexivity |]).
  apply remaining_codes.
Qed.

Lemma subscribe_effect_witness :
  exists u',
    subscribe "ann" (Some "WIN10_1") 1000
              (mkDB {[ "ann" := mkUser "ann" "ann" 1 false None 2 0
                                       ["WIN10_1"; "WIN10_2"] ]} ∅)
    = (SubscribeOk 2592001000,
       mkDB (<["ann" := u']>
               {[ "ann" := mkUser "ann" "ann" 1 false None 2 0
                                  ["WIN10_1"; "WIN10_2"] ]}) ∅)
    /\ piBalance u' = 0.55000000000000004%float
    /\ isPremium u' = true
    /\ ("WIN10_2" ∈ discountCodes u') /\ ("WIN10_1" ∉ discountCodes u').
Proof.
  destruct (subscribe_effect "ann" (Some "WIN10_1") 1000
              (mkDB {[ "ann" := mkUser "ann" "ann" 1 false None 2 0
                                       ["WIN10_1"; "WIN10_2"] ]} ∅)
              (mkUser "ann" "ann" 1 false None 2 0 ["WIN10_1"; "WIN10_2"]))
    as (u' & Hs & Hb & _ & Hp & _ & _ & _ & Hc); try reflexivity.
  exists u'. split; [exact Hs |]. split; [rewrite Hb; reflexivity |].
  split; [exact Hp |]. split.
  - apply Hc. split.
    + apply list_elem_of_In. cbn. auto.
    + intros [_ [= ]].
  - intros H. apply Hc in H as [_ H]. apply H. split; reflexivity.
Defined.

Lemma winner_count_positive (k : string) (ws : list Entry) :
  k ∈ map userId ws -> exists n, entry_count k ws = S n.
Proof.
  intros Hin. apply list_elem_of_fmap in Hin as (e & -> & He).
  unfold entry_count.
  destruct (List.filter _ ws) as [| x xs] eqn:E; [| cbn; eauto].
  exfalso. apply list_elem_of_In in He.
  assert (Hf : In e (List.filter (fun e' => String.eqb (userId e') (userId e)) ws))
    by (apply List.filter_In; split; [done | apply String.eqb_refl]).
  now rewrite E in Hf.
Qed.

(** X7. Winning and then subscribing.  After a settlement that returns (a
    database that holds no NaN, all winners stored, a finite payout), each
    stored user with a winning entry holds the code issued for the new
    value of the win counter, which is above the old one while that was
    below 2^53; subscribing with that code costs 0.45 instead of 0.5, and
    when the balance covers it the subscription goes through and the code
    is gone from the user's codes. *)
Theorem issued_code_earns_discount (w : World) (id : string) (db : DB)
    (m : Match) (r : string) (e : Entry) (u : User) (now : Z) :
  matches db !! id = Some m -> pending m = true -> fetch_result w m = Some r ->
  Forall (fun x => is_Some (users db !! userId x)) (winners_of r m) ->
  e ∈ winners_of r m -> users db !! userId e = Some u ->
  no_nan db ->
  PrimFloat.is_finite (payoutPerWinner m (length (winners_of r m))) = true ->
  exists db' u',
    settleMatch w id db = (Returned, db')
    /\ users db' !! userId e = Some u'
    /\ ((wins u < 2 ^ 53)%N -> (wins u < wins u')%N)
    /\ issued_code (wins u') ∈ discountCodes u'
    /\ subscription_price (Some (issued_code (wins u'))) = 0.45%float
    /\ (PrimFloat.ltb (piBalance u') 0.45%float = false ->
        exists u'',
          subscribe (userId e) (Some (issued_code (wins u'))) now db'
          = (SubscribeOk (now + 2592000000),
             mkDB (<[userId e := u'']> (users db')) (matches db'))
          /\ piBalance u'' = PrimFloat.sub (piBalance u') 0.45%float
          /\ isPremium u'' = true
          /\ issued_code (wins u') ∉ discountCodes u'').
Proof.
  intros Hm Hp Hr Hall He Hu Hnan Hfin.
  destruct (winner_count_positive (userId e) (winners_of r m)) as (n & Hn).
  { apply list_elem_of_fmap. now exists e. }
  eexists. eexists.
  split; [exact (settleMatch_credits w id db m r Hm Hp Hr Hall Hnan Hfin) |].
  cbn [users]. rewrite credit_all_lookup, Hu, Hn. split; [reflexivity |].
  set (p := payoutPerWinner m (length (winners_of r m))).
  split; [apply iter_credit_winner_wins |].
  split; [apply iter_credit_winner_last |].
  split; [apply issued_code_price |].
  intros Hlt. unfold subscribe. cbn [users matches].
  rewrite credit_all_lookup, Hu, Hn. cbn [fmap option_fmap option_map].
  rewrite (proj2 (issued_code_price _)), Hlt.
  eexists. split; [reflexivity |].
  cbn [piBalance isPremium discountCodes].
  do 2 (split; [reflexivity |]).
  intros Hin.
  apply (remaining_codes (Some (issued_code _))) in Hin as [_ Hin].
  apply Hin. split; [apply issued_code_price | reflexivity].
Qed.

Lemma issued_code_earns_discount_witness :
  exists db' u'',
    settleMatch (Example.nba_answer 100 100) "nba_4" Example.tied_db
    = (Returned, db')
    /\ fst (subscribe "bob" (Some "WIN10_1") 0 db') = SubscribeOk 2592000000
    /\ snd (subscribe "bob" (Some "WIN10_1") 0 db')
       = mkDB (<["bob" := u'']> (users db')) (matches db')
    /\ piBalance u'' = 0.45000000000000001%float
    /\ ("WIN10_1" ∉ discountCodes u'').
Proof.
  destruct (issued_code_earns_discount (Example.nba_answer 100 100) "nba_4"
              Example.tied_db Example.tied_pool "away"
              (mkEntry "bob" "away" 0.5) (Example.premium "bob" 0) 0
              eq_refl eq_refl eq_refl)
    as (db' & u' & Hs & Hu & _ & _ & _ & Hsub).
  - repeat constructor; vm_compute; eauto.
  - apply list_elem_of_In. cbn. auto.
  - reflexivity.
  - apply no_nan_b_sound. vm_compute. reflexivity.
  - vm_compute. reflexivity.
  - assert (Hu' : users db' !! "bob"
                  = users (snd (settleMatch (Example.nba_answer 100 100) "nba_4"
                                            Example.tied_db)) !! "bob")
      by now rewrite Hs.
    cbn [userId] in Hu. rewrite Hu in Hu'. vm_compute in Hu'.
    injection Hu' as ->.
    destruct Hsub as (u'' & Hsub & Hb & _ & Hgone); [reflexivity |].
    cbn [userId wins] in Hsub, Hgone. change (issued_code 1) with "WIN10_1" in *.
    exists db', u''. rewrite Hsub. repeat split; done.
Defined.

(** X8. Subscribing opens the premium gate: after a subscription that went
    through, the subscriber passes the gate of [/join-challenge], so a join
    of a stored pending match (fee a JSON number, or absent) is refused
    with a 4xx only for a balance below the fee; otherwise it is accepted,
    unless the new balance or the new pool total is NaN, which the save
    refuses and the handler answers with 500. *)
Theorem subscriber_can_join (user_id : string) (code : option string)
    (now until : Z) (db : DB) (match_id pred : string) (fee : option float)
    (m : Match) :
  fst (subscribe user_id code now db) = SubscribeOk until ->
  matches db !! match_id = Some m -> pending m = true ->
  eligible user_id (snd (subscribe user_id code now db)) = true
  /\ exists u',
       users (snd (subscribe user_id code now db)) !! user_id = Some u'
       /\ fst (join_challenge user_id match_id pred fee
                              (snd (subscribe user_id code now db)))
          = if PrimFloat.ltb (piBalance u') (default 0.5%float fee)
            then JsonError 400 "Insufficient balance"
            else if PrimFloat.is_nan
                      (PrimFloat.sub (piBalance u') (default 0.5%float fee))
                    || PrimFloat.is_nan
                         (PrimFloat.add (pool m) (default 0.5%float fee))
            then ServerError
            else JoinOk (PrimFloat.add (pool m) (default 0.5%float fee)).
Proof.
  unfold subscribe. intros Hok Hm Hp.
  destruct (users db !! user_id) as [u |] eqn:Hu; [| discriminate Hok].
  destruct (PrimFloat.ltb (piBalance u) (subscription_price code));
    [discriminate Hok |].
  cbn [snd]. unfold eligible. cbn [users save_user].
  rewrite lookup_insert_eq. split; [reflexivity |].
  eexists. split; [reflexivity |].
  erewrite join_challenge_stored;
    [| cbn; apply lookup_insert_eq | reflexivity | exact Hm | exact Hp].
  destruct (PrimFloat.ltb _ _); [done |].
  destruct (PrimFloat.is_nan (PrimFloat.sub _ _)); [done |].
  now destruct (PrimFloat.is_nan (PrimFloat.add _ _)).
Qed.

Lemma subscriber_can_join_witness :
  eligible "eve" Example.open_db = false
  /\ fst (join_challenge "eve" "fb_5" "home" None
                         (snd (subscribe "eve" None 0 Example.open_db)))
     = JoinOk 0.5.
Proof.
  split; [reflexivity |].
  destruct (subscriber_can_join "eve" None 0 2592000000 Example.open_db
              "fb_5" "home" None (Example.fresh "fb_5" "football"))
    as (_ & u' & Hu & Hj); [reflexivity | reflexivity | reflexivity |].
  rewrite Hj. vm_compute in Hu. injection Hu as <-. reflexivity.
Defined.

(** * Referral *)





(** A referral whose referrer is not stored throws and changes
    nothing; these are the only calls of [refer] that throw. *)
Lemma refer_unknown_referrer (a b : string) (db : DB) :
  (users db !! a = None <-> fst (refer a b db) = Threw)
  /\ (fst (refer a b db) = Threw -> snd (refer a b db) = db).
Proof.
  unfold refer. destruct (users db !! a) as [r |]; cbn.
  - split; [split; discriminate | discriminate].
  - split; [split; reflexivity | reflexivity].
Qed.

(** * Listing matches *)

Lemma upsert_users (l : Listing) (db : DB) : users (upsert l db) = users db.
Proof. unfold upsert. now destruct (matches db !! l_matchId l). Qed.

Lemma upsert_other (l : Listing) (db : DB) (k : string) :
  k <> l_matchId l -> matches (upsert l db) !! k = matches db !! k.
Proof.
  intros Hk. unfold upsert.
  destruct (matches db !! l_matchId l); cbn; now rewrite lookup_insert_ne.
Qed.

Lemma upsert_same (l : Listing) (db : DB) :
  exists m,
    matches (upsert l db) !! l_matchId l = Some m
    /\ (matchId m, sport m, home m, away m, date m)
       = (l_matchId l, l_sport l, l_home l, l_away l, l_date l)
    /\ stakes m = match matches db !! l_matchId l with
                  | Some m0 => stakes m0
                  | None => no_stakes
                  end.
Proof.
  unfold upsert.
  destruct (matches db !! l_matchId l) as [m0 |]; cbn;
    rewrite lookup_insert_eq; eauto.
Qed.

Lemma upsert_all_users (ls : list Listing) (db : DB) :
  users (upsert_all ls db) = users db.
Proof.
  revert db. induction ls as [| l ls IH]; intros db; [done |].
  cbn. unfold upsert_all in IH. now rewrite IH, upsert_users.
Qed.

Lemma upsert_all_other (ls : list Listing) (db : DB) (k : string) :
  k ∉ map l_matchId ls -> matches (upsert_all ls db) !! k = matches db !! k.
Proof.
  revert db. induction ls as [| l ls IH]; intros db Hk; [done |].
  cbn in Hk. apply not_elem_of_cons in Hk as [Hne Hk].
  cbn. unfold upsert_all in IH. now rewrite IH, upsert_other.
Qed.

(** What a refresh leaves under a key that was stored or is listed. *)
Lemma upsert_all_stakes (ls : list Listing) (db : DB) (k : string) :
  is_Some (matches db !! k) \/ k ∈ map l_matchId ls ->
  exists m,
    matches (upsert_all ls db) !! k = Some m
    /\ stakes m = match matches db !! k with
                  | Some m0 => stakes m0
                  | None => no_stakes
                  end.
Proof.
  revert db. induction ls as [| l ls IH]; intros db Hk.
  - destruct Hk as [[m Hm] | Hk]; [| now apply elem_of_nil in Hk].
    exists m. now rewrite Hm.
  - cbn [upsert_all foldl]. fold (upsert_all ls (upsert l db)).
    destruct (decide (k = l_matchId l)) as [-> | Hne].
    + destruct (upsert_same l db) as (m1 & Hm1 & _ & Hs1).
      destruct (IH (upsert l db)) as (m & Hm & Hs); [eauto |].
      exists m. split; [done |]. now rewrite Hs, Hm1.
    + destruct (IH (upsert l db)) as (m & Hm & Hs).
      { rewrite upsert_other by done. destruct Hk as [Hk | Hk]; [auto |].
        cbn in Hk. apply elem_of_cons in Hk as [Hk | Hk]; [done | auto]. }
      exists m. split; [done |]. now rewrite Hs, upsert_other.
Qed.

(** The two feeds are read before anything is stored: when either
    request fails, [/matches] answers the error and stores nothing, not
    even the games of the feed that answered; these are the only cases in
    which it answers an error. *)
Lemma matches_feed_failure (f : Feeds) (db : DB) :
  (nba_games f = None \/ football_next f = None
   <-> fst (get_matches f db) = MatchesError)
  /\ (fst (get_matches f db) = MatchesError -> snd (get_matches f db) = db).
Proof.
  unfold get_matches, fetch_listings.
  destruct (nba_games f) as [gs |], (football_next f) as [fs |]; cbn.
  - split; [split; [intros [H | H]; discriminate H | discriminate] | discriminate].
  - split; [split; auto | reflexivity].
  - split; [split; auto | reflexivity].
  - split; [split; auto | reflexivity].
Qed.

(** X10. Refreshing the listing never touches the money: whatever the feeds
    answer, every match that was stored is still stored with the same
    result, pool total and entries (only its teams, sport and date may be
    rewritten), and the users are exactly as they were.  So a refresh can
    neither reopen a settled match nor empty a pool. *)
Theorem refresh_keeps_stakes (f : Feeds) (db : DB) :
  users (snd (get_matches f db)) = users db
  /\ forall k m, matches db !! k = Some m ->
       exists m', matches (snd (get_matches f db)) !! k = Some m'
                  /\ result m' = result m /\ pool m' = pool m
                  /\ entries m' = entries m.
Proof.
  unfold get_matches.
  destruct (fetch_listings f) as [ls |]; cbn [snd].
  - split; [apply upsert_all_users |]. intros k m Hm.
    destruct (upsert_all_stakes ls db k) as (m' & Hm' & Hs); [eauto |].
    rewrite Hm in Hs. injection Hs as Hr Hp He. eauto.
  - split; [done |]. eauto.
Qed.

(** X11. After a refresh that went through, every listed game is stored
    under its prefixed id ([nba_] or [fb_] before the feed's id).  One
    that was not stored before starts pending, with pool total 0 and no
    entries; and when no two listed games share an id, each is stored
    with the sport, teams and date of its listing. *)
Theorem listed_games_are_stored (f : Feeds) (db : DB) (ls : list Listing)
    (l : Listing) :
  fetch_listings f = Some ls -> l ∈ ls ->
  exists m,
    matches (snd (get_matches f db)) !! l_matchId l = Some m
    /\ matchId m = l_matchId l
    /\ (matches db !! l_matchId l = None ->
        result m = "pending" /\ pool m = 0%float /\ entries m = [])
    /\ (NoDup (map l_matchId ls) ->
        sport m = l_sport l /\ home m = l_home l /\ away m = l_away l
        /\ date m = l_date l).
Proof.
  intros Hf Hl. unfold get_matches. rewrite Hf. cbn [snd]. clear Hf.
  assert (Hin : l_matchId l ∈ map l_matchId ls)
    by (apply list_elem_of_fmap; eauto).
  destruct (upsert_all_stakes ls db (l_matchId l)) as (m & Hm & Hs); [auto |].
  exists m. split; [done |].
  assert (Hfields : matchId m = l_matchId l
                    /\ (NoDup (map l_matchId ls) ->
                        sport m = l_sport l /\ home m = l_home l
                        /\ away m = l_away l /\ date m = l_date l)).
  { clear Hs Hin. revert db Hm.
    induction ls as [| l0 ls IH]; intros db Hm; [now apply elem_of_nil in Hl |].
    cbn [upsert_all foldl] in Hm. fold (upsert_all ls (upsert l0 db)) in Hm.
    destruct (decide (l_matchId l ∈ map l_matchId ls)) as [Hlater | Hlast].
    - apply elem_of_cons in Hl as [-> | Hl].
      + (* listed again later: the id is kept, the copy is excluded *)
        split.
        * clear IH. revert Hm. generalize (upsert l0 db).
          induction ls as [| l1 ls IH]; intros db1 Hm;
            [now apply elem_of_nil in Hlater |].
          cbn [upsert_all foldl] in Hm. fold (upsert_all ls (upsert l1 db1)) in Hm.
          destruct (decide (l_matchId l0 ∈ map l_matchId ls)) as [Hin | Hout].
          -- eauto.
          -- rewrite upsert_all_other in Hm by done.
             cbn in Hlater. apply elem_of_cons in Hlater as [Heq | ?]; [| done].
             rewrite Heq in Hm.
             destruct (upsert_same l1 db1) as (m1 & Hm1 & Hf1 & _).
             rewrite Hm1 in Hm. injection Hm as <-.
             injection Hf1 as -> _ _ _ _. done.
        * intros Hnd. cbn in Hnd. apply NoDup_cons in Hnd as [Hnd _]. done.
      + destruct (IH Hl (upsert l0 db) Hm) as [Hid Hrest].
        split; [done |]. intros Hnd. cbn in Hnd.
        apply NoDup_cons in Hnd as [_ Hnd]. auto.
    - apply elem_of_cons in Hl as [-> | Hl].
      + rewrite upsert_all_other in Hm by done.
        destruct (upsert_same l0 db) as (m1 & Hm1 & Hf1 & _).
        rewrite Hm1 in Hm. injection Hm as <-.
        injection Hf1 as -> -> -> -> ->. done.
      + exfalso. apply Hlast. apply list_elem_of_fmap. eauto. }
  destruct Hfields as [Hid Hrest]. split; [done |]. split; [| done].
  intros Hnone. rewrite Hnone in Hs. now injection Hs as -> -> ->.
Qed.

Lemma listed_games_are_stored_witness :
  matches Example.stale_db !! "fb_77" = None
  /\ matches (snd (get_matches Example.feeds Example.stale_db)) !! "fb_77"
     = Some (mkMatch "fb_77" "football" "Leeds" "Stoke" 200 "pending" 0 []).
Proof.
  split; [reflexivity |].
  destruct (listed_games_are_stored Example.feeds Example.stale_db
              [nba_listing (mkApiGame "41" "Hawks" "Bulls" 300);
               nba_listing (mkApiGame "1" "Nets" "Heat" 100);
               football_listing (mkApiFixture "77" "Leeds" "Stoke" 200)]
              (football_listing (mkApiFixture "77" "Leeds" "Stoke" 200)))
    as (m & Hm & Hid & Hnew & Hfields); [reflexivity | |].
  - apply list_elem_of_In. cbn. auto.
  - assert (Hm' : matches (snd (get_matches Example.feeds Example.stale_db))
                    !! "fb_77" = Some m) by exact Hm.
    rewrite Hm'. destruct m as [mid sp h a d r p es].
    cbn [matchId sport home away date result pool entries] in *.
    destruct Hnew as (-> & -> & ->); [reflexivity |].
    destruct Hfields as (-> & -> & -> & ->).
    + repeat constructor; rewrite ?list_elem_of_In; cbn; intuition discriminate.
    + rewrite Hid. reflexivity.
Defined.

#[global] Instance date_le_total : Total date_le.
Proof. intros a b. unfold date_le. lia. Qed.

#[global] Instance date_le_trans : Transitive date_le.
Proof. intros a b c. unfold date_le. lia. Qed.

#[global] Instance more_wins_total : Total more_wins.
Proof. intros a b. unfold more_wins. lia. Qed.

#[global] Instance more_wins_trans : Transitive more_wins.
Proof. intros a b c. unfold more_wins. lia. Qed.

Lemma stored_values {A} (mp : gmap string A) (x : A) :
  x ∈ map snd (map_to_list mp) <-> exists k, mp !! k = Some x.
Proof.
  rewrite list_elem_of_fmap. split.
  - intros ([k y] & -> & H). apply elem_of_map_to_list in H. eauto.
  - intros (k & H). exists (k, x). split; [done |].
    now apply elem_of_map_to_list.
Qed.

(** X12. The list [/matches] answers holds exactly the stored matches that
    are pending once the listed games have been stored, each stored
    pending match once, in the order of their dates (earliest first). *)
Theorem matches_answer (f : Feeds) (db db' : DB) (l : list Match) :
  get_matches f db = (MatchList l, db') ->
  StronglySorted (fun a b => (date a <= date b)%Z) l
  /\ (forall m, m ∈ l <-> pending m = true /\ exists k, matches db' !! k = Some m)
  /\ length l
     = length (List.filter (fun km => pending (snd km))
                           (map_to_list (matches db'))).
Proof.
  unfold get_matches. destruct (fetch_listings f) as [ls |]; [| discriminate].
  intros [= <- <-]. unfold pending_by_date. split; [| split].
  - apply (StronglySorted_merge_sort date_le).
  - intros m. rewrite merge_sort_Permutation.
    rewrite list_elem_of_In, List.filter_In, <- list_elem_of_In, stored_values.
    tauto.
  - rewrite merge_sort_Permutation.
    generalize (map_to_list (matches (upsert_all ls db))).
    intros kms. induction kms as [| [k m] kms IH]; [done |].
    cbn. destruct (pending m); cbn; now rewrite IH.
Qed.

Lemma matches_answer_witness :
  map matchId (pending_by_date (snd (get_matches Example.feeds Example.stale_db)))
  = ["fb_5"; "fb_77"; "nba_41"]
  /\ StronglySorted (fun a b => (date a <= date b)%Z)
       (pending_by_date (snd (get_matches Example.feeds Example.stale_db))).
Proof.
  split; [vm_compute; reflexivity |].
  exact (proj1 (matches_answer Example.feeds Example.stale_db
                  (snd (get_matches Example.feeds Example.stale_db))
                  (pending_by_date
                     (snd (get_matches Example.feeds Example.stale_db)))
                  eq_refl)).
Defined.

(** * Match ids *)

Lemma split_nonempty (c : ascii) (s : string) : split c s <> [].
Proof.
  destruct s as [| a s]; cbn; [done |].
  destruct (Ascii.eqb a c); [done |]. now destruct (split c s).
Qed.

Lemma split_sep (c : ascii) (s : string) :
  split c (String c s) = EmptyString :: split c s.
Proof. cbn. now rewrite Ascii.eqb_refl. Qed.

Lemma split_other (c a : ascii) (s : string) :
  Ascii.eqb a c = false ->
  exists w ws, split c s = w :: ws /\ split c (String a s) = String a w :: ws.
Proof.
  intros Ha. cbn. rewrite Ha.
  destruct (split c s) as [| w ws] eqn:E; [now apply split_nonempty in E |].
  eauto.
Qed.

(** [split] and [join] are inverse on the way back: putting the
    separator between the pieces [split] returns gives the string it was
    given, for every string and separator; and [split] never returns an
    empty list. *)
Lemma split_then_join (c : ascii) (s : string) :
  String.concat (String c EmptyString) (split c s) = s /\ split c s <> [].
Proof.
  split; [| apply split_nonempty].
  induction s as [| a s IH]; [reflexivity |].
  destruct (Ascii.eqb a c) eqn:Ha.
  - apply Ascii.eqb_eq in Ha as ->. rewrite split_sep.
    destruct (split c s) as [| w ws] eqn:E; [now apply split_nonempty in E |].
    cbn [String.concat]. cbn [String.concat] in IH. rewrite IH. reflexivity.
  - destruct (split_other c a s Ha) as (w & ws & E & ->).
    rewrite E in IH. destruct ws as [| w' ws]; cbn [String.concat] in *.
    + now rewrite IH.
    + rewrite <- IH. reflexivity.
Qed.

Lemma split_without_sep (c : ascii) (s : string) :
  occurs c s = false -> split c s = [s].
Proof.
  induction s as [| a s IH]; [reflexivity |].
  cbn [occurs]. intros H. apply orb_false_elim in H as [Ha Hs].
  cbn. rewrite Ha, (IH Hs). reflexivity.
Qed.

Lemma split_at_first_sep (c : ascii) (a b : string) :
  occurs c a = false ->
  split c (a +:+ String c b) = a :: split c b.
Proof.
  induction a as [| x a IH].
  - intros _. apply split_sep.
  - cbn [occurs]. intros H. apply orb_false_elim in H as [Hx Ha].
    change (String x a +:+ String c b) with (String x (a +:+ String c b)).
    cbn [split]. now rewrite Hx, (IH Ha).
Qed.

(** X13. The id under which a game is stored leads back to the game.  For
    a match stored under [nba_] or [fb_] followed by the feed's id, the id
    [settleMatch] sends to the sports API is the feed's id whenever that id
    contains no underscore (every numeric id); an id that does contain
    one is cut at its first underscore. *)
Theorem stored_id_leads_back (g : string) (m : Match) :
  matchId m = "nba_" +:+ g \/ matchId m = "fb_" +:+ g ->
  (occurs "_" g = false -> external_id m = g)
  /\ (forall a b, g = a +:+ String "_" b -> occurs "_" a = false ->
                  external_id m = a).
Proof.
  intros Hid.
  assert (Hsplit : split "_" (matchId m) = "nba" :: split "_" g
                   \/ split "_" (matchId m) = "fb" :: split "_" g).
  { destruct Hid as [-> | ->]; [left | right].
    - change ("nba_" +:+ g) with ("nba" +:+ String "_" g).
      now apply split_at_first_sep.
    - change ("fb_" +:+ g) with ("fb" +:+ String "_" g).
      now apply split_at_first_sep. }
  unfold external_id. split.
  - intros Hg. rewrite (split_without_sep _ _ Hg) in Hsplit.
    now destruct Hsplit as [-> | ->].
  - intros a b -> Ha. rewrite (split_at_first_sep _ _ _ Ha) in Hsplit.
    now destruct Hsplit as [-> | ->].
Qed.

Lemma stored_id_leads_back_witness :
  external_id (mkMatch "nba_41" "nba" "Hawks" "Bulls" 300 "pending" 0 []) = "41"
  /\ external_id (mkMatch "fb_7_b" "football" "Leeds" "Stoke" 0 "pending" 0 [])
     = "7".
Proof.
  split.
  - apply (stored_id_leads_back "41"); [left |]; reflexivity.
  - apply (stored_id_leads_back "7_b"
             (mkMatch "fb_7_b" "football" "Leeds" "Stoke" 0 "pending" 0 []))
      with (b := "b"); [right | |]; reflexivity.
Defined.

(** * Leaderboard *)

(** X14. The leaderboard has ten rows, or as many as there are users when
    there are fewer; its rows are the name and win counter of stored
    users, in order of falling win counters; and no user left off it has
    more wins than a user on it. *)
Theorem leaderboard_top_ten (db : DB) :
  length (leaderboard db) = Nat.min 10 (size (users db))
  /\ StronglySorted (fun a b => (snd b <= snd a)%N) (leaderboard db)
  /\ (forall row, row ∈ leaderboard db ->
        exists k u, users db !! k = Some u /\ row = (username u, wins u))
  /\ (forall k u row,
        users db !! k = Some u -> (username u, wins u) ∉ leaderboard db ->
        row ∈ leaderboard db -> (wins u <= snd row)%N).
Proof.
  unfold leaderboard.
  set (vals := map snd (map_to_list (users db))).
  set (sorted := merge_sort more_wins vals).
  assert (Hss : StronglySorted more_wins sorted)
    by apply (StronglySorted_merge_sort more_wins).
  assert (Hperm : sorted ≡ₚ vals) by apply merge_sort_Permutation.
  rewrite <- (take_drop 10 sorted) in Hss.
  split; [| split; [| split]].
  - rewrite length_map, length_take, (Permutation_length Hperm).
    unfold vals. now rewrite length_map, length_map_to_list.
  - apply (StronglySorted_fmap _ more_wins); [done |].
    apply (StronglySorted_app_1_l _ _ _ Hss).
  - intros row Hrow. apply list_elem_of_fmap in Hrow as (u & -> & Hu).
    assert (Hin : u ∈ vals).
    { rewrite <- Hperm. rewrite <- (take_drop 10 sorted).
      apply elem_of_app. now left. }
    apply stored_values in Hin as (k & Hk). eauto.
  - intros k u row Hk Hout Hrow.
    apply list_elem_of_fmap in Hrow as (v & -> & Hv). cbn.
    assert (Hin : u ∈ (take 10 sorted ++ drop 10 sorted)%list).
    { rewrite take_drop, Hperm. apply stored_values. eauto. }
    apply elem_of_app in Hin as [Hin | Hin].
    + exfalso. apply Hout. apply list_elem_of_fmap. eauto.
    + exact (StronglySorted_app_1_elem_of _ _ _ _ _ Hss Hv Hin).
Qed.

(** * What every sequence of requests keeps *)

Lemma settleMatch_matches (w : World) (id : string) (db : DB) :
  matches (snd (settleMatch w id db)) = matches db
  \/ exists m r,
       matches db !! id = Some m /\ pending m = true
       /\ matches (snd (settleMatch w id db))
          = <[id := set_result r m]> (matches db).
Proof.
  unfold settleMatch.
  destruct (matches db !! id) as [m |] eqn:Hm; [| auto].
  destruct (pending m) eqn:Hp; cbn [negb]; [| auto].
  destruct (fetch_result w m) as [r |]; [| auto].
  right. exists m, r. repeat split; try done.
  destruct (winners_of r m); [done |]. now rewrite credit_winners_matches.
Qed.

Lemma settleMatch_users (w : World) (id : string) (db : DB) :
  users (snd (settleMatch w id db)) = users db
  \/ exists payout ws db1,
       users db1 = users db
       /\ users (snd (settleMatch w id db))
          = users (snd (credit_winners payout ws db1)).
Proof.
  unfold settleMatch.
  destruct (matches db !! id) as [m |]; [| auto].
  destruct (negb (pending m)); [auto |].
  destruct (fetch_result w m) as [r |]; [| auto].
  destruct (winners_of r m) as [| e es]; [auto |].
  right. eexists _, _, _. split; [| reflexivity]. reflexivity.
Qed.

Lemma subscribe_db (user_id : string) (code : option string) (now : Z)
    (db : DB) :
  snd (subscribe user_id code now db) = db
  \/ exists u u',
       users db !! user_id = Some u
       /\ PrimFloat.ltb (piBalance u) (subscription_price code) = false
       /\ snd (subscribe user_id code now db) = save_user user_id u' db
       /\ piBalance u' = PrimFloat.sub (piBalance u) (subscription_price code)
       /\ wins u' = wins u
       /\ (forall c, c ∈ discountCodes u' -> c ∈ discountCodes u)
       /\ (NoDup (discountCodes u) -> NoDup (discountCodes u')).
Proof.
  unfold subscribe.
  destruct (users db !! user_id) as [u |]; [| auto].
  destruct (PrimFloat.ltb (piBalance u) (subscription_price code)) eqn:Hlt;
    [auto |].
  right. eexists u, _. split; [done |]. split; [done |].
  split; [reflexivity |]. cbn. repeat split; try done.
  - intros c Hc. now apply remaining_codes in Hc as [Hc _].
  - destruct code as [c |]; [destruct (truthy (Some c)) |]; try done.
    intros H. apply NoDup_ListNoDup, List.NoDup_filter.
    now apply NoDup_ListNoDup.
Qed.

Lemma issued_code_inj (a b : N) : issued_code a = issued_code b -> a = b.
Proof.
  unfold issued_code. intros H.
  change ("WIN10_" +:+ pretty a) with
    (String "W" (String "I" (String "N" (String "1" (String "0"
       (String "_" (pretty a))))))) in H.
  change ("WIN10_" +:+ pretty b) with
    (String "W" (String "I" (String "N" (String "1" (String "0"
       (String "_" (pretty b))))))) in H.
  injection H as H. now apply (inj pretty).
Qed.

Lemma credit_winner_codes_ok (payout : float) (u : User) :
  ((wins u < 2 ^ 53)%N -> codes_ok u) ->
  (wins (credit_winner payout u) < 2 ^ 53)%N ->
  codes_ok (credit_winner payout u).
Proof.
  intros Hok Hlt. cbn [credit_winner wins] in Hlt.
  pose proof (succ_ge (wins u)) as Hge.
  assert (Hu : (wins u < 2 ^ 53)%N) by lia.
  destruct (Hok Hu) as [Hnd Hall].
  unfold codes_ok. cbn [credit_winner wins discountCodes].
  rewrite succ_below by done. split.
  - apply NoDup_app. split; [done |]. split; [| apply NoDup_singleton].
    intros c Hc Hnew. apply list_elem_of_singleton in Hnew as ->.
    rewrite Forall_forall in Hall. apply Hall in Hc as (k & Hk & Hle).
    apply issued_code_inj in Hk. lia.
  - apply Forall_app. split.
    + eapply Forall_impl; [exact Hall |]. cbn.
      intros c (k & -> & Hle). exists k. split; [done | lia].
    + constructor; [| constructor]. exists (wins u + 1)%N. split; [done | lia].
Qed.

Lemma credit_winners_codes_ok (payout : float) (ws : list Entry) (db : DB) :
  counted_codes_ok db ->
  counted_codes_ok (snd (credit_winners payout ws db)).
Proof.
  revert db. induction ws as [| w ws IH]; intros db Hok; [done |].
  rewrite credit_winners_cons.
  destruct (users db !! userId w) as [u |] eqn:Hu; [| done].
  destruct (PrimFloat.is_nan _); [done |].
  apply IH. intros k v. cbn. rewrite lookup_insert. case_decide.
  - intros [= <-]. apply credit_winner_codes_ok. exact (Hok _ _ Hu).
  - apply Hok.
Qed.

Lemma upsert_pools_ok (l : Listing) (db : DB) :
  pools_ok db -> pools_ok (upsert l db).
Proof.
  intros Hok k m. unfold upsert.
  destruct (matches db !! l_matchId l) as [m0 |] eqn:Hm0; cbn;
    rewrite lookup_insert; case_decide; try apply Hok.
  - intros [= <-]. cbn. exact (Hok _ _ Hm0).
  - intros [= <-]. reflexivity.
Qed.

Lemma serve_settled (rq : Request) (db : DB) (id : string) (m : Match) :
  matches db !! id = Some m -> pending m = false ->
  exists m', matches (serve rq db) !! id = Some m'
             /\ pending m' = false /\ stakes m' = stakes m.
Proof.
  intros Hm Hp. destruct rq as [r | w id' | user_id code now | a b | f]; cbn [serve].
  - unfold join.
    destruct (join_challenge_case (req_userId r) (req_matchId r)
                (req_prediction r) (req_entryFee r) db)
      as [| | | | u m0 Hu Hprem Hm0 Hp0 Hlt | u m0 Hu Hprem Hm0 Hp0 Hlt];
      cbn [snd]; eauto.
    cbn. rewrite lookup_insert_ne; [eauto | congruence].
  - destruct (settleMatch_matches w id' db) as [-> | (m0 & r & Hm0 & Hp0 & ->)];
      [eauto |].
    rewrite lookup_insert_ne; [eauto | congruence].
  - destruct (subscribe_db user_id code now db)
      as [-> | (u & u' & _ & _ & -> & _)]; eauto.
  - unfold refer. destruct (users db !! a); cbn; eauto.
  - unfold get_matches. destruct (fetch_listings f) as [ls |]; cbn [snd]; [| eauto].
    destruct (upsert_all_stakes ls db id) as (m' & Hm' & Hs); [eauto |].
    rewrite Hm in Hs. exists m'. repeat split; try done.
    unfold stakes in Hs. injection Hs as Hr _ _. unfold pending in *.
    now rewrite Hr.
Qed.

(** X15. A settled match is frozen.  Once the result of a stored match is
    no longer 'pending', no sequence of requests (joins, settlements with
    any API answers, subscriptions, referrals, listing refreshes) changes
    its result, its pool total or its entries again, and the match stays
    stored. *)
Theorem settled_match_is_frozen (rqs : list Request) (db : DB) (id : string)
    (m : Match) :
  matches db !! id = Some m -> pending m = false ->
  exists m', matches (serve_all rqs db) !! id = Some m'
             /\ result m' = result m /\ pool m' = pool m
             /\ entries m' = entries m.
Proof.
  revert db m. induction rqs as [| rq rqs IH]; intros db m Hm Hp.
  - exists m. auto.
  - destruct (serve_settled rq db id m Hm Hp) as (m1 & Hm1 & Hp1 & Hs1).
    destruct (IH _ _ Hm1 Hp1) as (m' & Hm' & Hr & Hpool & He).
    exists m'. split; [exact Hm' |].
    unfold stakes in Hs1. injection Hs1 as Hr1 Hpool1 He1.
    repeat split; congruence.
Qed.

Lemma settled_match_is_frozen_witness :
  exists m',
    matches (serve_all
               [ReqMatches Example.feeds;
                ReqJoin (mkJoin "ann" "nba_1" "away" None);
                ReqSettle (Example.nba_answer 1 2) "nba_1"]
               Example.stale_db) !! "nba_1" = Some m'
    /\ result m' = "home" /\ pool m' = 1%float
    /\ entries m' = [mkEntry "ann" "home" 0.5; mkEntry "bob" "away" 0.5].
Proof.
  exact (settled_match_is_frozen
           [ReqMatches Example.feeds;
            ReqJoin (mkJoin "ann" "nba_1" "away" None);
            ReqSettle (Example.nba_answer 1 2) "nba_1"]
           Example.stale_db "nba_1"
           (mkMatch "nba_1" "nba" "Home" "Away" 0 "home" 1
                    [mkEntry "ann" "home" 0.5; mkEntry "bob" "away" 0.5])
           eq_refl eq_refl).
Defined.

Lemma serve_pools_ok (rq : Request) (db : DB) :
  pools_ok db -> pools_ok (serve rq db).
Proof.
  intros Hok. destruct rq as [r | w id | user_id code now | a b | f]; cbn [serve].
  - now apply join_pools_ok.
  - destruct (settleMatch_matches w id db) as [E | (m & r & Hm & _ & E)];
      intros k m'; rewrite E; [apply Hok |].
    rewrite lookup_insert. case_decide; [| apply Hok].
    intros [= <-]. cbn. exact (Hok _ _ Hm).
  - destruct (subscribe_db user_id code now db)
      as [-> | (u & u' & _ & _ & -> & _)]; [done |]. exact Hok.
  - unfold refer. destruct (users db !! a); cbn [snd]; exact Hok.
  - unfold get_matches. destruct (fetch_listings f) as [ls |]; cbn [snd]; [| done].
    revert db Hok. induction ls as [| l ls IH]; intros db Hok; [done |].
    cbn. apply IH. now apply upsert_pools_ok.
Qed.

(** X16. Every pool total is the Number sum of its recorded fees, whatever
    is served with fees that are JSON numbers or absent: starting from a
    database where this holds (such as one whose matches all have pool
    total 0 and no entries), after every sequence of joins, settlements,
    subscriptions, referrals and listing refreshes every pool total is the
    fees of its entries added in entry order, each addition rounded to
    binary64. *)
Theorem pool_totals_always_add_up (rqs : list Request) (db : DB) :
  pools_ok db ->
  forall k m, matches (serve_all rqs db) !! k = Some m ->
    pool m = fold_left (fun acc e => PrimFloat.add acc (entryFee e))
                       (entries m) 0%float.
Proof.
  intros Hok.
  assert (H : pools_ok (serve_all rqs db)).
  { revert db Hok. induction rqs as [| rq rqs IH]; intros db Hok; [done |].
    apply IH. now apply serve_pools_ok. }
  exact H.
Qed.

Lemma pool_totals_always_add_up_witness :
  pool <$> matches (serve_all Example.busy Example.stale_db) !! "nba_41"
  = Some 0.5%float
  /\ pools_ok (serve_all Example.busy Example.stale_db).
Proof.
  split; [vm_compute; reflexivity |].
  refine (pool_totals_always_add_up Example.busy Example.stale_db _).
  intros k m Hk. apply elem_of_list_to_map_2, list_elem_of_In in Hk.
  cbn in Hk. destruct Hk as [[= <- <-] | [[= <- <-] | []]]; reflexivity.
Defined.

Lemma serve_codes_ok (rq : Request) (db : DB) :
  counted_codes_ok db -> counted_codes_ok (serve rq db).
Proof.
  intros Hok. destruct rq as [r | w id | user_id code now | a b | f]; cbn [serve].
  - unfold join.
    destruct (join_challenge_case (req_userId r) (req_matchId r)
                (req_prediction r) (req_entryFee r) db)
      as [| | | | u m Hu Hprem Hm Hp Hlt | u m Hu Hprem Hm Hp Hlt];
      cbn [snd]; try done.
    all: intros k v; cbn; rewrite lookup_insert; case_decide; [| apply Hok];
      intros [= <-]; exact (Hok _ _ Hu).
  - destruct (settleMatch_users w id db) as [E | (p & ws & db1 & E1 & E)];
      intros k v; rewrite E; [apply Hok |].
    apply credit_winners_codes_ok. intros k' v'. rewrite E1. apply Hok.
  - destruct (subscribe_db user_id code now db)
      as [-> | (u & u' & Hu & _ & -> & _ & Hw & Hsub & Hnd)]; [done |].
    intros k v. cbn. rewrite lookup_insert. case_decide; [| apply Hok].
    intros [= <-] Hlt. rewrite Hw in Hlt.
    destruct (Hok _ _ Hu Hlt) as [Hnd0 Hall]. split; [auto |].
    rewrite Forall_forall in *. intros c Hc. rewrite Hw. auto.
  - unfold refer. destruct (users db !! a) as [r |] eqn:Hr; cbn [snd]; [| done].
    intros k v. cbn. rewrite lookup_insert. case_decide; [| apply Hok].
    intros [= <-]. exact (Hok _ _ Hr).
  - intros k v. unfold get_matches.
    destruct (fetch_listings f) as [ls |]; cbn [snd]; [| apply Hok].
    rewrite upsert_all_users. apply Hok.
Qed.

(** X17. Reward codes do not repeat while the win counter is below 2^53.
    Starting from users whose codes are distinct codes WIN10_k issued for
    wins they have had (such as users with no codes), after every sequence
    of requests the codes of each user whose win counter is below 2^53 (the
    range in which a Number counts by one) are still distinct, and each is
    a code WIN10_k with k at most the user's win counter: settlement never
    issues such a user a code the user already holds. *)
Theorem reward_codes_stay_distinct (rqs : list Request) (db : DB) :
  all_codes_ok db ->
  forall k u, users (serve_all rqs db) !! k = Some u -> (wins u < 2 ^ 53)%N ->
    NoDup (discountCodes u)
    /\ forall c, c ∈ discountCodes u ->
         exists n, c = "WIN10_" +:+ pretty n /\ (n <= wins u)%N.
Proof.
  intros Hok.
  assert (H : counted_codes_ok (serve_all rqs db)).
  { assert (Hok' : counted_codes_ok db) by (intros k u Hu _; eauto).
    clear Hok. revert db Hok'.
    induction rqs as [| rq rqs IH]; intros db Hok; [done |].
    apply IH. now apply serve_codes_ok. }
  intros k u Hu Hlt. destruct (H k u Hu Hlt) as [Hnd Hall]. split; [done |].
  now rewrite Forall_forall in Hall.
Qed.

Lemma reward_codes_stay_distinct_witness :
  (discountCodes
   <$> users (serve_all
                [ReqSettle (Example.nba_answer 101 99) "nba_8";
                 ReqSubscribe "ann" (Some "WIN10_1") 0]
                Example.double_db) !! "ann"
   = Some ["WIN10_2"])
  /\ NoDup ["WIN10_2"].
Proof.
  split; [vm_compute; reflexivity |].
  refine (proj1 (reward_codes_stay_distinct
                   [ReqSettle (Example.nba_answer 101 99) "nba_8";
                    ReqSubscribe "ann" (Some "WIN10_1") 0]
                   Example.double_db _ "ann"
                   (mkUser "ann" "ann" 0.45000000000000001 true
                           (Some 2592000000%Z) 2 0 ["WIN10_2"]) _ _)).
  - intros k' u' Hk'. cbn in Hk'.
    apply lookup_singleton_Some in Hk' as [_ <-].
    split; [apply NoDup_nil_2 | constructor].
  - vm_compute. reflexivity.
  - vm_compute. reflexivity.
Defined.

Lemma serve_balances_ok (rq : Request) (db : DB) :
  is_settle rq = false -> balances_ok db -> balances_ok (serve rq db).
Proof.
  intros Hrq Hok.
  destruct rq as [r | w id | user_id code now | a b | f]; cbn [serve];
    try discriminate Hrq.
  - now apply join_balances_ok.
  - destruct (subscribe_db user_id code now db)
      as [-> | (u & u' & Hu & Hlt & -> & Hb & _)]; [done |].
    intros k v. cbn. rewrite lookup_insert. case_decide; [| apply Hok].
    intros [= <-]. unfold Number.negative. rewrite Hb.
    now apply Binary64.sub_not_negative.
  - unfold refer. destruct (users db !! a) as [r |] eqn:Hr; cbn [snd]; [| done].
    intros k v. cbn. rewrite lookup_insert. case_decide; [| apply Hok].
    intros [= <-]. cbn. apply Binary64.add_not_negative; [| reflexivity].
    exact (Hok _ _ Hr).
  - intros k v. unfold get_matches.
    destruct (fetch_listings f) as [ls |]; cbn [snd]; [| apply Hok].
    rewrite upsert_all_users. apply Hok.
Qed.

(** X18. No request other than a settlement can make a balance negative:
    along every sequence of joins, subscriptions, referrals and listing
    refreshes, from a database without negative balances, no balance is
    ever negative.  (Both debits are guarded by a balance test, and a
    referral only adds.) *)
Theorem no_overdraft_without_settlement (rqs : list Request) (db : DB) :
  forallb (fun rq => negb (is_settle rq)) rqs = true ->
  balances_ok db -> balances_ok (serve_all rqs db).
Proof.
  revert db. induction rqs as [| rq rqs IH]; intros db Hrqs Hok; [done |].
  cbn in Hrqs. apply andb_prop in Hrqs as [Hrq Hrqs].
  apply IH; [done |]. apply serve_balances_ok; [| done].
  now destruct (is_settle rq).
Qed.

Lemma no_overdraft_without_settlement_witness :
  piBalance
  <$> users (serve_all
               [ReqSubscribe "eve" None 0;
                ReqJoin (mkJoin "eve" "fb_5" "home" None);
                ReqJoin (mkJoin "eve" "fb_5" "home" None);
                ReqRefer "eve" "ann"]
               Example.open_db) !! "eve"
  = Some 0.1%float
  /\ balances_ok (serve_all
                    [ReqSubscribe "eve" None 0;
                     ReqJoin (mkJoin "eve" "fb_5" "home" None);
                     ReqJoin (mkJoin "eve" "fb_5" "home" None);
                     ReqRefer "eve" "ann"]
                    Example.open_db).
Proof.
  split; [vm_compute; reflexivity |].
  apply no_overdraft_without_settlement; [reflexivity |].
  intros k u Hk. apply elem_of_list_to_map_2, list_elem_of_In in Hk.
  cbn in Hk. destruct Hk as [[= <- <-] | [[= <- <-] | []]]; reflexivity.
Defined.

Lemma serve_dom (rq : Request) (db : DB) :
  dom (users (serve rq db)) = dom (users db)
  /\ dom (matches db) ⊆ dom (matches (serve rq db)).
Proof.
  destruct rq as [r | w id | user_id code now | a b | f]; cbn [serve].
  - unfold join.
    destruct (join_challenge_case (req_userId r) (req_matchId r)
                (req_prediction r) (req_entryFee r) db)
      as [| | | | u m Hu Hprem Hm Hp Hlt | u m Hu Hprem Hm Hp Hlt];
      cbn [snd]; try done.
    + cbn. split; [apply dom_insert_lookup_L; eauto | done].
    + cbn. split; [apply dom_insert_lookup_L; eauto | apply dom_insert_subseteq].
  - split.
    + destruct (settleMatch_users w id db) as [-> | (p & ws & db1 & E1 & ->)];
        [done |]. now rewrite credit_winners_dom, E1.
    + destruct (settleMatch_matches w id db) as [-> | (m & r & _ & _ & ->)];
        [done |]. apply dom_insert_subseteq.
  - destruct (subscribe_db user_id code now db)
      as [-> | (u & u' & Hu & _ & -> & _)]; [done |].
    cbn. split; [apply dom_insert_lookup_L; eauto | done].
  - unfold refer. destruct (users db !! a) as [r |] eqn:Hr; cbn [snd]; [| done].
    cbn. split; [apply dom_insert_lookup_L; eauto | done].
  - unfold get_matches. destruct (fetch_listings f) as [ls |]; cbn [snd]; [| done].
    split; [now rewrite upsert_all_users |].
    intros k Hk. apply elem_of_dom in Hk.
    destruct (upsert_all_stakes ls db k) as (m' & Hm' & _); [auto |].
    apply elem_of_dom. eauto.
Qed.

(** X19. No request creates or removes a user, and none removes a match:
    after every sequence of requests the stored users are exactly the users
    stored at the start, and every match stored at the start is still
    stored.  (A caller that is not stored can therefore never join,
    subscribe or be credited.) *)
Theorem users_are_never_created (rqs : list Request) (db : DB) :
  dom (users (serve_all rqs db)) = dom (users db)
  /\ dom (matches db) ⊆ dom (matches (serve_all rqs db)).
Proof.
  revert db. induction rqs as [| rq rqs IH]; intros db; [done |].
  cbn. destruct (IH (serve rq db)) as [Hu Hm].
  destruct (serve_dom rq db) as [Hu1 Hm1].
  unfold serve_all in *. split; [congruence |].
  etrans; [exact Hm1 | exact Hm].
Qed.

Lemma credit_winners_premium (payout : float) (ws : list Entry) (db : DB)
    (k : string) (u : User) :
  users db !! k = Some u -> isPremium u = true ->
  exists u', users (snd (credit_winners payout ws db)) !! k = Some u'
             /\ isPremium u' = true.
Proof.
  revert db u. induction ws as [| w ws IH]; intros db u Hu Hp; [cbn; eauto |].
  rewrite credit_winners_cons.
  destruct (users db !! userId w) as [v |] eqn:Hv; [| cbn; eauto].
  destruct (PrimFloat.is_nan _); [cbn; eauto |].
  destruct (decide (userId w = k)) as [E | Hne].
  - apply (IH _ (credit_winner payout v)).
    + cbn. rewrite E. apply lookup_insert_eq.
    + cbn. rewrite E in Hv. congruence.
  - apply (IH _ u); [| done]. cbn. now rewrite lookup_insert_ne.
Qed.

Lemma serve_premium (rq : Request) (db : DB) (k : string) (u : User) :
  users db !! k = Some u -> isPremium u = true ->
  exists u', users (serve rq db) !! k = Some u' /\ isPremium u' = true.
Proof.
  intros Hu Hp. destruct rq as [r | w id | user_id code now | a b | f]; cbn [serve].
  - unfold join.
    destruct (join_challenge_case (req_userId r) (req_matchId r)
                (req_prediction r) (req_entryFee r) db)
      as [| | | | v m Hv Hprem Hm Hpm Hlt | v m Hv Hprem Hm Hpm Hlt];
      cbn [snd]; eauto.
    all: cbn; rewrite lookup_insert; case_decide; eauto.
  - destruct (settleMatch_users w id db) as [-> | (p & ws & db1 & E1 & ->)];
      [eauto |].
    apply (credit_winners_premium p ws db1 k u); [now rewrite E1 | done].
  - unfold subscribe. destruct (users db !! user_id) as [v |] eqn:Hv; [| eauto].
    destruct (PrimFloat.ltb _ _); cbn [snd]; [eauto |].
    cbn. rewrite lookup_insert. case_decide; eauto.
  - unfold refer. destruct (users db !! a) as [v |] eqn:Hv; cbn [snd]; [| eauto].
    cbn. rewrite lookup_insert. case_decide as E; [| eauto].
    eexists. split; [reflexivity |]. cbn. rewrite E in Hv. congruence.
  - unfold get_matches.
    destruct (fetch_listings f) as [ls |]; cbn [snd]; [| eauto].
    rewrite upsert_all_users. eauto.
Qed.

(** X20. Premium never lapses.  No request clears the premium flag and no
    request reads the expiry date: a stored user whose flag is set keeps it
    through every sequence of requests, whatever time passes, and so keeps
    passing the premium gate of [/join-challenge]. *)
Theorem premium_never_lapses (rqs : list Request) (db : DB) (k : string)
    (u : User) :
  users db !! k = Some u -> isPremium u = true ->
  (exists u', users (serve_all rqs db) !! k = Some u' /\ isPremium u' = true)
  /\ eligible k (serve_all rqs db) = true.
Proof.
  intros Hu Hp.
  assert (H : exists u', users (serve_all rqs db) !! k = Some u'
                         /\ isPremium u' = true).
  { revert db u Hu Hp. induction rqs as [| rq rqs IH]; intros db u Hu Hp;
      [cbn; eauto |].
    destruct (serve_premium rq db k u Hu Hp) as (u1 & Hu1 & Hp1).
    exact (IH _ _ Hu1 Hp1). }
  split; [exact H |]. destruct H as (u' & Hu' & Hp').
  unfold eligible. now rewrite Hu'.
Qed.

Lemma premium_never_lapses_witness :
  premiumUntil
  <$> users (serve_all [ReqSubscribe "eve" None 0; ReqRefer "eve" "ann"]
                       Example.open_db) !! "eve"
  = Some (Some 2592000000%Z)
  /\ eligible "eve"
       (serve_all [ReqJoin (mkJoin "eve" "fb_5" "home" None);
                   ReqMatches Example.feeds;
                   ReqSettle (Example.football_answer 1 0) "fb_5"]
                  (serve_all [ReqSubscribe "eve" None 0; ReqRefer "eve" "ann"]
                             Example.open_db))
     = true.
Proof.
  split; [vm_compute; reflexivity |].
  apply (premium_never_lapses _ _ "eve"
           (mkUser "eve" "eve" 0.6 true (Some 2592000000%Z) 0 1 []));
    vm_compute; reflexivity.
Defined.
